(** * Photo gallery backend (app.py): metadata reconciliation between the
      remote asset store and the local JSON cache, the ID allocator, the
      collection/photo linker and the request handlers.

    The Python module is embedded shallowly.  Dictionaries that the program
    builds with a fixed set of keys become records; the two stores, the
    startup flag [cloudinary_configured] and the outcomes of the calls that
    leave the process (remote API, local file writes) form an explicit
    [World] that every function threads through a small state monad.

    Conventions of the model:
    - a [collection_id] is [None], an [int] or a [str]; ids are [int]s;
    - a [str] is held as the bytes of its UTF-8 encoding;
    - a cached photo carries every key the program writes, except
      ['cloudinary_public_id'], which the handlers test for;
    - the remote service is described by what the program asks of it: a
      listing of at most 500 assets with their context, the collections
      document, upload, context replacement and deletion of an asset; each
      call may raise;
    - a handler answers with its JSON envelope and status code; the text of
      a caught exception is not modelled. *)

From Stdlib Require Import ZArith List String Ascii Bool Lia.
From Stdlib Require Import DecimalString Permutation Sorted.
Import ListNotations.

Open Scope string_scope.
Open Scope Z_scope.

(** ** Python values and string helpers *)

(** A JSON scalar as the program meets it in a [collection_id] position:
    [None], an [int] or a [str]. *)
Inductive value : Type :=
| VNone
| VInt (z : Z)
| VStr (s : string).

(** Python's [==] on these values: an [int] never equals a [str]. *)
Definition py_eq (a b : value) : bool :=
  match a, b with
  | VNone, VNone => true
  | VInt x, VInt y => x =? y
  | VStr s, VStr t => (s =? t)%string
  | _, _ => false
  end.

(** Truthiness, as tested by [if collection_id:]. *)
Definition truthy (v : value) : bool :=
  match v with
  | VNone => false
  | VInt z => negb (z =? 0)
  | VStr s => negb (s =? "")%string
  end.

(** [str(n)] for an [int]. *)
Definition py_str_int (z : Z) : string :=
  NilZero.string_of_int (Z.to_int z).

(** [str(v)]. *)
Definition py_str (v : value) : string :=
  match v with
  | VNone => "None"
  | VInt z => py_str_int z
  | VStr s => s
  end.

(** Whitespace removed by [str.strip()] (ASCII range). *)
Definition is_space (c : ascii) : bool :=
  let n := N_of_ascii c in
  ((9 <=? n) && (n <=? 13) || (28 <=? n) && (n <=? 32))%N.

Fixpoint lstrip (s : string) : string :=
  match s with
  | EmptyString => EmptyString
  | String c r => if is_space c then lstrip r else s
  end.

Fixpoint rstrip (s : string) : string :=
  match s with
  | EmptyString => EmptyString
  | String c r =>
      match rstrip r with
      | EmptyString => if is_space c then EmptyString else String c EmptyString
      | r' => String c r'
      end
  end.

Definition ascii_strip (s : string) : string := rstrip (lstrip s).

Definition lower_char (c : ascii) : ascii :=
  let n := N_of_ascii c in
  if ((65 <=? n) && (n <=? 90))%N then ascii_of_N (n + 32) else c.

Fixpoint ascii_lower (s : string) : string :=
  match s with
  | EmptyString => EmptyString
  | String c r => String (lower_char c) (ascii_lower r)
  end.

Definition digit_of (c : ascii) : option Z :=
  let n := N_of_ascii c in
  if ((48 <=? n) && (n <=? 57))%N then Some (Z.of_N n - 48) else None.

(** *** [int()] of a [str]

    A [str] is held as the bytes of its UTF-8 encoding.  [int()] first
    replaces every character outside ASCII: a Unicode space by a blank, a
    Unicode decimal digit by its ASCII digit, anything else by "?".  It
    then reads blanks, an optional sign, decimal digits with single
    underscores between them, and blanks again.  The blanks are those of
    C's [isspace]: U+001C to U+001F are not among them, although
    [str.strip] removes them.

    The interpreter also refuses, by default, a text of more than 4300
    digits (and [str()] a number of as many); this limit is a setting of
    the interpreter and not part of the model. *)

(** A code point decoded from a sequence of bytes: not below [least] (the
    shortest encoding only), no surrogate, at most U+10FFFF. *)
Definition scalar (least n : N) : option N :=
  if ((least <=? n) && (n <=? 0x10FFFF)
      && negb ((0xD800 <=? n) && (n <=? 0xDFFF)))%N
  then Some n else None.

(** The code points of a text; [None] ends the list at the first byte
    sequence that encodes none.  [need] continuation bytes are awaited for
    the code point begun in [acc]. *)
Fixpoint code_points_from (need : nat) (acc least : N) (s : string)
  : list (option N) :=
  match s, need with
  | EmptyString, O => []
  | EmptyString, S _ => [None]
  | String c r, O =>
      let n := N_of_ascii c in
      if (n <? 0x80)%N then Some n :: code_points_from 0 0 0 r
      else if (n <? 0xC0)%N then [None]
      else if (n <? 0xE0)%N then code_points_from 1 (n - 0xC0) 0x80 r
      else if (n <? 0xF0)%N then code_points_from 2 (n - 0xE0) 0x800 r
      else if (n <? 0xF8)%N then code_points_from 3 (n - 0xF0) 0x10000 r
      else [None]
  | String c r, S k =>
      let n := N_of_ascii c in
      if ((0x80 <=? n) && (n <? 0xC0))%N then
        let acc' := (acc * 64 + (n - 0x80))%N in
        match k with
        | O =>
            match scalar least acc' with
            | Some p => Some p :: code_points_from 0 0 0 r
            | None => [None]
            end
        | S _ => code_points_from k acc' least r
        end
      else [None]
  end.

Definition code_points (s : string) : list (option N) :=
  code_points_from 0 0 0 s.

(** [str.isspace] outside ASCII. *)
Definition unicode_space (n : N) : bool :=
  (existsb (N.eqb n)
     [0x85; 0xA0; 0x1680; 0x2028; 0x2029; 0x202F; 0x205F; 0x3000]
   || (0x2000 <=? n) && (n <=? 0x200A))%N.

(** Where the decimal digits of Unicode 14 begin: each entry is a zero that
    the digits one to nine follow. *)
Definition decimal_zeros : list N :=
  [0x660; 0x6F0; 0x7C0; 0x966; 0x9E6; 0xA66;
    0xAE6; 0xB66; 0xBE6; 0xC66; 0xCE6; 0xD66;
    0xDE6; 0xE50; 0xED0; 0xF20; 0x1040; 0x1090;
    0x17E0; 0x1810; 0x1946; 0x19D0; 0x1A80; 0x1A90;
    0x1B50; 0x1BB0; 0x1C40; 0x1C50; 0xA620; 0xA8D0;
    0xA900; 0xA9D0; 0xA9F0; 0xAA50; 0xABF0; 0xFF10;
    0x104A0; 0x10D30; 0x11066; 0x110F0; 0x11136; 0x111D0;
    0x112F0; 0x11450; 0x114D0; 0x11650; 0x116C0; 0x11730;
    0x118E0; 0x11950; 0x11C50; 0x11D50; 0x11DA0; 0x16A60;
    0x16AC0; 0x16B50; 0x1D7CE; 0x1D7D8; 0x1D7E2; 0x1D7EC;
    0x1D7F6; 0x1E140; 0x1E2F0; 0x1E950; 0x1FBF0]%N.

Definition unicode_decimal (n : N) : option N :=
  match find (fun z => (z <=? n) && (n <? z + 10))%N decimal_zeros with
  | Some z => Some (n - z)%N
  | None => None
  end.

Definition ascii_of_code_point (p : option N) : ascii :=
  match p with
  | Some n =>
      if (n <? 127)%N then ascii_of_N n
      else if unicode_space n then " "%char
      else match unicode_decimal n with
           | Some d => ascii_of_N (48 + d)
           | None => "?"%char
           end
  | None => "?"%char
  end.

Definition decimal_and_space_to_ascii (s : string) : string :=
  string_of_list_ascii (map ascii_of_code_point (code_points s)).

Definition is_c_space (c : ascii) : bool :=
  let n := N_of_ascii c in
  ((9 <=? n) && (n <=? 13) || (n =? 32))%N.

Fixpoint skip_spaces (s : string) : string :=
  match s with
  | EmptyString => EmptyString
  | String c r => if is_c_space c then skip_spaces r else s
  end.

Fixpoint only_spaces (s : string) : bool :=
  match s with
  | EmptyString => true
  | String c r => (is_c_space c && only_spaces r)%bool
  end.

(** Digits of a decimal literal, single underscores allowed between two
    digits, and blanks after the last digit.  [prev] tells whether the
    previous character was a digit. *)
Fixpoint int_digits (acc : Z) (prev : bool) (s : string) : option Z :=
  match s with
  | EmptyString => if prev then Some acc else None
  | String c r =>
      match digit_of c with
      | Some d => int_digits (10 * acc + d) true r
      | None =>
          if (Ascii.eqb c "_" && prev)%bool then
            match r with
            | EmptyString => None
            | String c' _ =>
                match digit_of c' with
                | Some _ => int_digits acc false r
                | None => None
                end
            end
          else if (prev && only_spaces s)%bool then Some acc
          else None
      end
  end.

Definition int_of_ascii (s : string) : option Z :=
  match skip_spaces s with
  | String "-" r => option_map Z.opp (int_digits 0 false r)
  | String "+" r => int_digits 0 false r
  | r => int_digits 0 false r
  end.

(** [int(s)] for a [str]; [None] stands for [ValueError]. *)
Definition py_int_str (s : string) : option Z :=
  int_of_ascii (decimal_and_space_to_ascii s).

(** [int(v)]; [int(None)] raises [TypeError]. *)
Definition py_int (v : value) : option Z :=
  match v with
  | VNone => None
  | VInt z => Some z
  | VStr s => py_int_str s
  end.

(** [s.rsplit('.', 1)[1]] when ['.' in s], else [None]. *)
Fixpoint rsplit_dot (s : string) : option string :=
  match s with
  | EmptyString => None
  | String c r =>
      match rsplit_dot r with
      | Some e => Some e
      | None => if Ascii.eqb c "." then Some r else None
      end
  end.

(** [max(...)] over a generator of [int]s; [None] stands for the
    [ValueError] raised on an empty one. *)
Definition py_max (l : list Z) : option Z :=
  match l with
  | [] => None
  | x :: r => Some (fold_left Z.max r x)
  end.

(** ** Stable sorting

    [list.sort(key=...)] is stable, also with [reverse=True]: elements with
    equal keys keep their input order.  A stable sort has exactly one
    possible result, so insertion into the sorted tail stands for it.
    [before y x] says that [y]'s key comes strictly first. *)
Section StableSort.
Context {A : Type} (before : A -> A -> bool).

Fixpoint insert (x : A) (l : list A) : list A :=
  match l with
  | [] => [x]
  | y :: l' => if before y x then y :: insert x l' else x :: l
  end.

Fixpoint py_sort (l : list A) : list A :=
  match l with
  | [] => []
  | x :: l' => insert x (py_sort l')
  end.
End StableSort.

(** ** Data model *)

(** A photo dictionary.  The keys are those the program writes; the key
    ['cloudinary_public_id'] is tested with [in], so it may be missing. *)
Record photo : Type := mkPhoto {
  p_id : Z;
  p_filename : string;
  p_title : string;
  p_description : string;
  p_collection_id : value;
  p_cloudinary_url : string;
  p_cloudinary_public_id : option string;
  p_image_url : string;
  p_upload_date : string;
  p_storage_type : string
}.

Record collection : Type := mkCollection {
  c_id : Z;
  c_name : string;
  c_created_date : string
}.

(** The key/value context attached to a remote asset. *)
Definition context : Type := list (string * string).

Fixpoint ctx_get (k : string) (ctx : context) : option string :=
  match ctx with
  | [] => None
  | (k', v) :: r => if (k =? k')%string then Some v else ctx_get k r
  end.

Definition get_default (o : option string) (d : string) : string :=
  match o with Some v => v | None => d end.

(** One entry of the remote listing. *)
Record resource : Type := mkResource {
  r_public_id : string;
  r_secure_url : string;
  r_created_at : option string;
  r_context : option context
}.

(** A local cache file: missing, holding a serialized list, or present but
    unreadable (a truncated or damaged document). *)
Inductive file (A : Type) : Type :=
| Absent
| Content (data : A)
| Corrupt.
Arguments Absent {A}.
Arguments Content {A} data.
Arguments Corrupt {A}.

(** How a local [open(..., 'w')] followed by [json.dump] ends. *)
Inductive write_outcome : Type :=
| WriteOk
| WriteFailOpen     (* [open] raised: the file is untouched *)
| WriteFailDump.    (* [json.dump] raised: the file was truncated *)

Inductive remote_op : Type :=
| ApiResources
| ApiResource
| HttpGet
| UploadRaw
| UploadImage
| Explicit
| Destroy.

Inductive local_file : Type := LOCAL_METADATA_FILE | LOCAL_COLLECTIONS_FILE.

Inductive event : Type :=
| Remote (op : remote_op) (ok : bool)
| LocalWrite (f : local_file) (res : write_outcome).

(** The state outside the request: the startup flag, the remote store, the
    two cache files, the outcomes of the coming remote calls and file
    writes (an exhausted list means the call succeeds) and the calls made so
    far. *)
Record World : Type := mkWorld {
  cloudinary_configured : bool;
  assets : list resource;
  collections_metadata : option (list collection);
  photos_file : file (list photo);
  collections_file : file (list collection);
  net : list bool;
  disk : list write_outcome;
  log : list event
}.

(** ** State monad *)

Definition M (A : Type) : Type := World -> A * World.

Definition ret {A} (a : A) : M A := fun w => (a, w).

Definition bind {A B} (m : M A) (k : A -> M B) : M B :=
  fun w => let (a, w') := m w in k a w'.

Notation "x <- m ;; k" := (bind m (fun x => k))
  (at level 61, m at next level, right associativity).
Notation "m ;;; k" := (bind m (fun _ => k))
  (at level 61, right associativity).

Definition gets {A} (f : World -> A) : M A := fun w => (f w, w).

Definition run {A} (m : M A) (w : World) : A := fst (m w).
Definition exec {A} (m : M A) (w : World) : World := snd (m w).

(** ** Primitive effects *)

Definition next_net (w : World) : bool :=
  match net w with [] => true | b :: _ => b end.

Definition next_disk (w : World) : write_outcome :=
  match disk w with [] => WriteOk | r :: _ => r end.

(** A call to the remote service: it raises when its outcome is [false]. *)
Definition remote_call (op : remote_op) : M bool := fun w =>
  let ok := next_net w in
  (ok, mkWorld (cloudinary_configured w) (assets w) (collections_metadata w)
         (photos_file w) (collections_file w) (tl (net w)) (disk w)
         (log w ++ [Remote op ok])).

Definition written {A} (res : write_outcome) (old : file A) (data : A) : file A :=
  match res with
  | WriteOk => Content data
  | WriteFailOpen => old
  | WriteFailDump => Corrupt
  end.

Definition is_ok (res : write_outcome) : bool :=
  match res with WriteOk => true | _ => false end.

(** [with open(LOCAL_METADATA_FILE, 'w') as f: json.dump(data, f)];
    the result says whether no exception was raised. *)
Definition write_photos_file (data : list photo) : M bool := fun w =>
  let res := next_disk w in
  (is_ok res,
   mkWorld (cloudinary_configured w) (assets w) (collections_metadata w)
     (written res (photos_file w) data) (collections_file w) (net w)
     (tl (disk w)) (log w ++ [LocalWrite LOCAL_METADATA_FILE res])).

Definition write_collections_file (data : list collection) : M bool := fun w =>
  let res := next_disk w in
  (is_ok res,
   mkWorld (cloudinary_configured w) (assets w) (collections_metadata w)
     (photos_file w) (written res (collections_file w) data) (net w)
     (tl (disk w)) (log w ++ [LocalWrite LOCAL_COLLECTIONS_FILE res])).

Definition set_assets (a : list resource) : M unit := fun w =>
  (tt, mkWorld (cloudinary_configured w) a (collections_metadata w)
         (photos_file w) (collections_file w) (net w) (disk w) (log w)).

Definition set_collections_metadata (d : list collection) : M unit := fun w =>
  (tt, mkWorld (cloudinary_configured w) (assets w) (Some d)
         (photos_file w) (collections_file w) (net w) (disk w) (log w)).

(** [os.path.exists] and [json.load] of a cache file inside the [try] of the
    loaders: a missing or unreadable file gives the empty list. *)
Definition read_file {A} (f : file (list A)) : list A :=
  match f with
  | Content data => data
  | Absent | Corrupt => []
  end.

(** ** Remote loaders (load_photos_from_cloudinary and siblings) *)

(** The [collection_id] of a listed asset: the context string converted
    with [int], [None] when empty, missing or not a number. *)
Definition context_collection_id (ctx : context) : value :=
  let collection_id := get_default (ctx_get "collection_id" ctx) "" in
  if negb (collection_id =? "")%string then
    match py_int_str collection_id with
    | Some n => VInt n
    | None => VNone
    end
  else VNone.

(** The body of the [for resource in ...] loop; [photos_data] is the list
    built so far, [None] an exception raised by [int]. *)
Definition photo_of_resource (photos_data : list photo) (r : resource)
  : option photo :=
  let ctx := match r_context r with Some c => c | None => [] end in
  let collection_id := context_collection_id ctx in
  match
    match ctx_get "id" ctx with
    | Some s => py_int_str s
    | None => Some (Z.of_nat (List.length photos_data) + 1)
    end
  with
  | None => None
  | Some i =>
      Some (mkPhoto i
              (get_default (ctx_get "filename" ctx) "photo.jpg")
              (get_default (ctx_get "title" ctx) "Untitled")
              (get_default (ctx_get "description" ctx) "")
              collection_id
              (r_secure_url r)
              (Some (r_public_id r))
              (r_secure_url r)
              (get_default (ctx_get "upload_date" ctx)
                 (get_default (r_created_at r) ""))
              "cloudinary")
  end.

Fixpoint photos_of_resources (photos_data : list photo) (rs : list resource)
  : option (list photo) :=
  match rs with
  | [] => Some photos_data
  | r :: rs' =>
      match photo_of_resource photos_data r with
      | None => None
      | Some p => photos_of_resources (photos_data ++ [p]) rs'
      end
  end.

Definition by_id (a b : photo) : bool := p_id a <? p_id b.

(** What a successful listing turns into: at most 500 assets, converted and
    sorted by id; the empty list when the conversion raises. *)
Definition listed_photos (a : list resource) : list photo :=
  match photos_of_resources [] (firstn 500 a) with
  | Some photos_data => py_sort by_id photos_data
  | None => []
  end.

Definition load_photos_from_cloudinary : M (list photo) :=
  configured <- gets cloudinary_configured ;;
  if negb configured then ret []
  else
    ok <- remote_call ApiResources ;;
    if ok then a <- gets assets ;; ret (listed_photos a)
    else ret [].

Definition load_collections_from_cloudinary : M (list collection) :=
  configured <- gets cloudinary_configured ;;
  if negb configured then ret []
  else
    ok <- remote_call ApiResource ;;
    doc <- gets collections_metadata ;;
    match ok, doc with
    | true, Some collections_data =>
        ok' <- remote_call HttpGet ;;
        if ok' then ret collections_data else ret []
    | _, _ => ret []
    end.

Definition save_collections_to_cloudinary (collections_data : list collection)
  : M bool :=
  configured <- gets cloudinary_configured ;;
  if negb configured then ret false
  else
    ok <- remote_call UploadRaw ;;
    if ok then set_collections_metadata collections_data ;;; ret true
    else ret false.

(** ** Metadata reconciler *)

Definition load_photos_data : M (list photo) :=
  cloudinary_data <- load_photos_from_cloudinary ;;
  match cloudinary_data with
  | _ :: _ => write_photos_file cloudinary_data ;;; ret cloudinary_data
  | [] => f <- gets photos_file ;; ret (read_file f)
  end.

Definition load_collections_data : M (list collection) :=
  cloudinary_data <- load_collections_from_cloudinary ;;
  match cloudinary_data with
  | _ :: _ => write_collections_file cloudinary_data ;;; ret cloudinary_data
  | [] => f <- gets collections_file ;; ret (read_file f)
  end.

Definition save_collections_data (collections_data : list collection) : M bool :=
  configured <- gets cloudinary_configured ;;
  cloudinary_success <-
    (if configured then save_collections_to_cloudinary collections_data
     else ret false) ;;
  local_success <- write_collections_file collections_data ;;
  if configured then ret cloudinary_success else ret local_success.

(** ** ID allocator *)

Definition get_next_photo_id : M Z :=
  photos_data <- load_photos_data ;;
  match py_max (map p_id photos_data) with
  | None => ret 1
  | Some m => ret (m + 1)
  end.

Definition get_next_collection_id : M Z :=
  collections_data <- load_collections_data ;;
  match py_max (map c_id collections_data) with
  | None => ret 1
  | Some m => ret (m + 1)
  end.

(** ** Collection-photo linker *)

Definition get_collection_photo_count (collection_id : value) : M nat :=
  photos_data <- load_photos_data ;;
  ret (List.length (filter (fun p => py_eq (p_collection_id p) collection_id)
                 photos_data)).

(** [next((c for c in collections_data if c['id'] == collection_id), None)] *)
Definition find_collection (collection_id : value) (l : list collection)
  : option collection :=
  find (fun c => py_eq (VInt (c_id c)) collection_id) l.

Definition get_collection_name (collection_id : value) : M (option string) :=
  if negb (truthy collection_id) then ret None
  else
    collections_data <- load_collections_data ;;
    match find_collection collection_id collections_data with
    | Some c => ret (Some (c_name c))
    | None => ret None
    end.

(** ** Request handlers *)

(** The JSON envelope and status code a handler answers with.  [Crash] is
    the outer [except Exception]: status 500 with the exception's text. *)
Inductive response : Type :=
| Success
| SuccessCollection (c : collection)
| SuccessPhoto (p : photo)
| SuccessPhotos (photos : list photo) (c : collection) (total_count : nat)
| Failure (status : Z) (error : string)
| Crash.

Definition status_code (r : response) : Z :=
  match r with
  | Failure status _ => status
  | Crash => 500
  | _ => 200
  end.

Definition succeeded (r : response) : bool :=
  match r with
  | Failure _ _ | Crash => false
  | _ => true
  end.

Definition authorized (password : option string) : bool :=
  match password with
  | Some p => (p =? "Hanshow99@")%string
  | None => false
  end.

Definition find_photo (photo_id : Z) (l : list photo) : option photo :=
  find (fun p => p_id p =? photo_id) l.

Definition find_collection_by_id (collection_id : Z) (l : list collection)
  : option collection :=
  find (fun c => c_id c =? collection_id) l.

(** The comparison of [get_collection_photos]: a photo without collection is
    skipped, the others are compared through [str]. *)
Definition in_collection (collection_id : Z) (p : photo) : bool :=
  match p_collection_id p with
  | VNone => false
  | v => (py_str v =? py_str (VInt collection_id))%string
  end.

(** [key=lambda x: x.get('upload_date', ''), reverse=True] *)
Definition newer (a b : photo) : bool :=
  (p_upload_date b <? p_upload_date a)%string.

Definition get_collection_photos (collection_id : Z) : M response :=
  photos_data <- load_photos_data ;;
  collections_data <- load_collections_data ;;
  match find_collection_by_id collection_id collections_data with
  | None => ret (Failure 404 "Collection not found")
  | Some c =>
      let collection_photos :=
        py_sort newer (filter (in_collection collection_id) photos_data) in
      ret (SuccessPhotos collection_photos c (List.length collection_photos))
  end.

(** [photo['collection_id'] = v] on the dictionary that [next(...)] found:
    the first entry of the list with that id changes, in place. *)
Fixpoint assign_collection (photo_id : Z) (v : value) (l : list photo)
  : list photo :=
  match l with
  | [] => []
  | p :: r =>
      if p_id p =? photo_id then
        mkPhoto (p_id p) (p_filename p) (p_title p) (p_description p) v
          (p_cloudinary_url p) (p_cloudinary_public_id p) (p_image_url p)
          (p_upload_date p) (p_storage_type p) :: r
      else p :: assign_collection photo_id v r
  end.

(** [collection['name'] = name], likewise on the first entry found. *)
Fixpoint assign_name (collection_id : Z) (name : string) (l : list collection)
  : list collection :=
  match l with
  | [] => []
  | c :: r =>
      if c_id c =? collection_id then
        mkCollection (c_id c) name (c_created_date c) :: r
      else c :: assign_name collection_id name r
  end.

(** The context re-supplied by a reassignment and written by an upload. *)
Definition context_of (i : Z) (filename title description : string)
  (collection_id : value) (upload_date : string) : context :=
  [("id", py_str_int i); ("filename", filename); ("title", title);
   ("description", description);
   ("collection_id", if truthy collection_id then py_str collection_id else "");
   ("upload_date", upload_date)].

Definition has_asset (public_id : string) (a : list resource) : bool :=
  existsb (fun r => (r_public_id r =? public_id)%string) a.

Definition set_context (public_id : string) (ctx : context) (a : list resource)
  : list resource :=
  map (fun r => if (r_public_id r =? public_id)%string
                then mkResource (r_public_id r) (r_secure_url r)
                       (r_created_at r) (Some ctx)
                else r) a.

(** [cloudinary.uploader.explicit(public_id, type="upload", context=...)]:
    the service replaces the asset's context; it raises on a failed call and
    on an unknown asset. *)
Definition uploader_explicit (public_id : string) (ctx : context) : M bool :=
  ok <- remote_call Explicit ;;
  a <- gets assets ;;
  if (ok && has_asset public_id a)%bool
  then set_assets (set_context public_id ctx a) ;;; ret true
  else ret false.

(** [cloudinary.uploader.destroy(public_id)] *)
Definition uploader_destroy (public_id : string) : M bool :=
  ok <- remote_call Destroy ;;
  if ok then
    a <- gets assets ;;
    set_assets (filter (fun r => negb (r_public_id r =? public_id)%string) a) ;;;
    ret true
  else ret false.

(** [cloudinary.uploader.upload(file, public_id=..., folder=..., context=...)]:
    the service stores the asset under [folder/public_id] and lists it
    first; [secure_url] and [created_at] are what it answers. *)
Definition uploader_upload (public_id : string) (ctx : context)
  (secure_url created_at : string) : M (option (string * string)) :=
  ok <- remote_call UploadImage ;;
  if ok then
    let full_id := "georges_photo_gallery/" ++ public_id in
    a <- gets assets ;;
    set_assets (mkResource full_id secure_url (Some created_at) (Some ctx)
                :: filter (fun r => negb (r_public_id r =? full_id)%string) a) ;;;
    ret (Some (secure_url, full_id))
  else ret None.

Definition update_photo_collection (password : option string) (photo_id : Z)
  (collection_id : value) : M response :=
  if negb (authorized password) then ret (Failure 401 "Unauthorized")
  else
    checked <-
      (if truthy collection_id then
         collections_data <- load_collections_data ;;
         match collections_data with
         | [] => ret (inl (Failure 400 "Invalid collection ID"))
         | _ :: _ =>
             match py_int collection_id with
             | None => ret (inl Crash)
             | Some n =>
                 if existsb (fun c => c_id c =? n) collections_data
                 then ret (inr (VInt n))
                 else ret (inl (Failure 400 "Invalid collection ID"))
             end
         end
       else ret (inr collection_id)) ;;
    match checked with
    | inl r => ret r
    | inr collection_id =>
        photos_data <- load_photos_data ;;
        match find_photo photo_id photos_data with
        | None => ret (Failure 404 "Photo not found")
        | Some photo =>
            configured <- gets cloudinary_configured ;;
            updated <-
              match configured, p_cloudinary_public_id photo with
              | true, Some public_id =>
                  uploader_explicit public_id
                    (context_of (p_id photo) (p_filename photo) (p_title photo)
                       (p_description photo) collection_id (p_upload_date photo))
              | _, _ => ret true
              end ;;
            if negb updated
            then ret (Failure 500 "Failed to update photo in Cloudinary")
            else
              write_photos_file
                (assign_collection photo_id collection_id photos_data) ;;;
              ret Success
        end
    end.

Definition delete_photo (password : option string) (photo_id : Z) : M response :=
  if negb (authorized password) then ret (Failure 401 "Unauthorized")
  else
    photos_data <- load_photos_data ;;
    match find_photo photo_id photos_data with
    | None => ret (Failure 404 "Photo not found")
    | Some photo =>
        configured <- gets cloudinary_configured ;;
        match configured, p_cloudinary_public_id photo with
        | true, Some public_id => uploader_destroy public_id
        | _, _ => ret true
        end ;;;
        write_photos_file
          (filter (fun p => negb (p_id p =? photo_id)) photos_data) ;;;
        ret Success
    end.

(** The handlers below call [str.lower] and [str.strip]; both are taken as
    they are, so the results hold for Python's Unicode-aware functions as
    well as for [ascii_lower] and [ascii_strip]. *)
Section Handlers.
Variable lower : string -> string.
Variable strip : string -> string.

Definition same_name (name : string) (c : collection) : bool :=
  (lower (c_name c) =? lower name)%string.

Definition create_collection (password : option string)
  (name_field : option string) (now : string) : M response :=
  if negb (authorized password) then ret (Failure 401 "Unauthorized")
  else
    let name := strip (get_default name_field "") in
    if (name =? "")%string
    then ret (Failure 400 "Collection name is required")
    else
      collections_data <- load_collections_data ;;
      if existsb (same_name name) collections_data
      then ret (Failure 400 "Collection name already exists")
      else
        new_id <- get_next_collection_id ;;
        let new_collection := mkCollection new_id name now in
        ok <- save_collections_data (collections_data ++ [new_collection]) ;;
        if ok then ret (SuccessCollection new_collection)
        else ret (Failure 500 "Failed to save collection").

Definition update_collection (password : option string) (collection_id : Z)
  (name_field : option string) : M response :=
  if negb (authorized password) then ret (Failure 401 "Unauthorized")
  else
    let name := strip (get_default name_field "") in
    if (name =? "")%string
    then ret (Failure 400 "Collection name is required")
    else
      collections_data <- load_collections_data ;;
      match find_collection_by_id collection_id collections_data with
      | None => ret (Failure 404 "Collection not found")
      | Some c =>
          if existsb (fun c' => same_name name c'
                                && negb (c_id c' =? collection_id))%bool
               collections_data
          then ret (Failure 400 "Collection name already exists")
          else
            ok <- save_collections_data
                    (assign_name collection_id name collections_data) ;;
            if ok
            then ret (SuccessCollection
                        (mkCollection (c_id c) name (c_created_date c)))
            else ret (Failure 500 "Failed to save collection")
      end.

(** [file.filename.rsplit('.', 1)[1].lower() if '.' in file.filename
    else 'jpg'] *)
Definition file_extension (filename : string) : string :=
  match rsplit_dot filename with
  | Some e => lower e
  | None => "jpg"
  end.

(** [f"{uuid.uuid4().hex}.{file_extension}"] *)
Definition unique_filename (uuid_hex filename : string) : string :=
  uuid_hex ++ "." ++ file_extension filename.

(** The upload request: the form fields, the name of the file part
    ([None] when the part is missing), and what the environment supplies:
    the random token, the two readings of the clock and the service's
    answer. *)
Record upload_request : Type := mkUpload {
  u_password : option string;
  u_title : option string;
  u_description : option string;
  u_collection_id : option string;
  u_filename : option string;
  u_uuid_hex : string;
  u_now_context : string;
  u_now_record : string;
  u_secure_url : string;
  u_created_at : string
}.

Definition upload_photo (q : upload_request) : M response :=
  if negb (authorized (u_password q)) then ret (Failure 401 "Unauthorized")
  else
    let title := get_default (u_title q) "Untitled" in
    let description := get_default (u_description q) "" in
    checked <-
      match u_collection_id q with
      | Some s =>
          if (s =? "")%string then ret (inr VNone)
          else
            match py_int_str s with
            | None => ret (inl (Failure 400 "Invalid collection ID format"))
            | Some n =>
                collections_data <- load_collections_data ;;
                if existsb (fun c => c_id c =? n) collections_data
                then ret (inr (VInt n))
                else ret (inl (Failure 400 "Invalid collection ID"))
            end
      | None => ret (inr VNone)
      end ;;
    match checked with
    | inl r => ret r
    | inr collection_id =>
        match u_filename q with
        | None => ret (Failure 400 "No photo file provided")
        | Some filename =>
            if (filename =? "")%string
            then ret (Failure 400 "No photo file selected")
            else
              let unique := unique_filename (u_uuid_hex q) filename in
              photo_id <- get_next_photo_id ;;
              configured <- gets cloudinary_configured ;;
              if configured then
                result <-
                  uploader_upload
                    ("photo_" ++ py_str_int photo_id ++ "_" ++ unique)
                    (context_of photo_id filename title description
                       collection_id (u_now_context q))
                    (u_secure_url q) (u_created_at q) ;;
                match result with
                | Some (secure_url, public_id) =>
                    ret (SuccessPhoto
                           (mkPhoto photo_id filename title description
                              collection_id secure_url (Some public_id)
                              secure_url (u_now_record q) "cloudinary"))
                | None => ret (Failure 500 "Upload failed: ")
                end
              else ret (Failure 500 "Cloudinary not configured")
        end
    end.
End Handlers.

(** ** Specification-side helpers *)

(** What [load_photos_from_cloudinary] returns: the listing when the store
    is configured and the call goes through, the empty list otherwise. *)
Definition remote_photos (w : World) : list photo :=
  if (cloudinary_configured w && next_net w)%bool
  then listed_photos (assets w) else [].

(** The second remote call of [load_collections_from_cloudinary], when the
    first one found the document. *)
Definition second_net (w : World) : bool :=
  match tl (net w) with [] => true | b :: _ => b end.

Definition remote_collections (w : World) : list collection :=
  match collections_metadata w with
  | Some d =>
      if (cloudinary_configured w && next_net w && second_net w)%bool
      then d else []
  | None => []
  end.

Definition cached {A} (remote : list A) (local : file (list A)) : list A :=
  match remote with
  | [] => read_file local
  | _ :: _ => remote
  end.

Definition refreshed {A} (res : write_outcome) (remote : list A)
  (local : file (list A)) : file (list A) :=
  match remote with
  | [] => local
  | _ :: _ => written res local remote
  end.

(** A world without remote store whose photo cache holds the ids 3, 7, 2,
    and its collection cache likewise. *)
Definition plain_photo (i : Z) (collection_id : value) (date : string) : photo :=
  mkPhoto i "photo.jpg" "Untitled" "" collection_id "" None "" date "local".

Definition local_world (photos : list photo) (collections : list collection)
  : World :=
  mkWorld false [] None (Content photos) (Content collections) [] [] [].

Definition ids_3_7_2 : World :=
  local_world
    [plain_photo 3 VNone ""; plain_photo 7 VNone ""; plain_photo 2 VNone ""]
    [mkCollection 3 "a" ""; mkCollection 7 "b" ""; mkCollection 2 "c" ""].

(** [next_id] as the allocator is described: 1 on an empty sequence, one
    more than the greatest id otherwise. *)
Definition is_next_id (ids : list Z) (n : Z) : Prop :=
  match ids with
  | [] => n = 1
  | _ :: _ => In (n - 1) ids /\ Forall (fun i => i <= n - 1) ids
  end.

(** ** Sample worlds and requests *)

Definition admin : option string := Some "Hanshow99@".

(** Two cached collections, no remote store. *)
Definition weddings_world : World :=
  local_world []
    [mkCollection 1 "Weddings" "2024-01-01T10:00:00";
     mkCollection 2 "Travel" "2024-01-02T10:00:00"].

(** A cache in which one photo stores its collection as the string "3" and
    another as the integer 3. *)
Definition drift_world : World :=
  local_world
    [plain_photo 1 (VStr "3") "2024-01-01T10:00:00";
     plain_photo 2 (VInt 3) "2024-01-02T10:00:00"]
    [mkCollection 3 "Weddings" "2024-01-01T09:00:00"].

(** A remote asset as an upload of this program leaves it. *)
Definition asset (i : Z) (collection_id : value) : resource :=
  mkResource ("georges_photo_gallery/photo_" ++ py_str_int i ++ "_a.jpg")
    ("https://res.example/" ++ py_str_int i ++ ".jpg")
    (Some "2024-01-01T10:00:00Z")
    (Some (context_of i "a.jpg" "Sunset" "" collection_id
             "2024-01-01T10:00:00")).

(** A configured store holding one photo of collection 3; the cache files
    are missing; [n] gives the outcomes of the coming remote calls. *)
Definition remote_world (n : list bool) : World :=
  mkWorld true [asset 1 (VInt 3)] (Some [mkCollection 3 "Weddings" ""])
    Absent Absent n [] [].

(** An upload of a file named "holiday" with an empty title. *)
Definition empty_title_upload : upload_request :=
  mkUpload admin (Some "") None None (Some "holiday") "0123abcd"
    "2024-02-01T08:00:00" "2024-02-01T08:00:01" "https://res.example/new.jpg"
    "2024-02-01T08:00:00Z".

(** The same upload without a title field. *)
Definition untitled_upload : upload_request :=
  mkUpload admin None None None (Some "holiday") "0123abcd"
    "2024-02-01T08:00:00" "2024-02-01T08:00:01" "https://res.example/new.jpg"
    "2024-02-01T08:00:00Z".

(** ** Later loads *)

(** The same world with other outcomes for the coming calls. *)
Definition with_outcomes (n : list bool) (d : list write_outcome) (w : World)
  : World :=
  mkWorld (cloudinary_configured w) (assets w) (collections_metadata w)
    (photos_file w) (collections_file w) n d (log w).

(** A run of photo loads, each under outcomes of its own. *)
Fixpoint loads (schedule : list (list bool * list write_outcome)) (w : World)
  : World :=
  match schedule with
  | [] => w
  | (n, d) :: s => loads s (exec load_photos_data (with_outcomes n d w))
  end.

Definition lacks (photo_id : Z) (l : list photo) : Prop :=
  Forall (fun p => p_id p <> photo_id) l.

(** Neither the remote listing (when the store is configured) nor the cache
    file yields a photo with this id. *)
Definition gone (photo_id : Z) (w : World) : Prop :=
  (cloudinary_configured w = true ->
   lacks photo_id (listed_photos (assets w))) /\
  lacks photo_id (read_file (photos_file w)).

(** The id an asset carries in its context. *)
Definition asset_id (r : resource) : option Z :=
  match r_context r with
  | Some ctx =>
      match ctx_get "id" ctx with
      | Some s => py_int_str s
      | None => None
      end
  | None => None
  end.

(** Every asset carries an id in its context and no two carry the same. *)
Definition distinct_ids (a : list resource) : Prop :=
  exists ids : list Z, map asset_id a = map Some ids /\ NoDup ids.

(** The destroy call is made when the store is configured and the photo
    names its asset; its outcome only decides whether the asset goes. *)
Definition after_destroy (photo : photo) (w1 : World) : list resource :=
  match cloudinary_configured w1, p_cloudinary_public_id photo with
  | true, Some public_id =>
      if next_net w1
      then filter (fun r => negb (r_public_id r =? public_id)%string) (assets w1)
      else assets w1
  | _, _ => assets w1
  end.

From Stdlib Require DecimalPos DecimalZ.

(** ** Read-only handlers and startup *)

(** The startup block: [cloudinary_configured] is set when the three
    environment variables are non-empty and neither [cloudinary.config]
    nor [cloudinary.api.ping] raises. *)
Definition env_set (v : option string) : bool :=
  match v with
  | Some s => negb (s =? "")%string
  | None => false
  end.

Definition configure (cloud_name api_key api_secret : option string)
  (ping_ok : bool) : bool :=
  if (env_set cloud_name && env_set api_key && env_set api_secret)%bool
  then ping_ok else false.

(** The world a process starts in: the flag from [configure], the stores
    and files as it finds them. *)
Definition startup (cloud_name api_key api_secret : option string)
  (ping_ok : bool) (w : World) : World :=
  mkWorld (configure cloud_name api_key api_secret ping_ok) (assets w)
    (collections_metadata w) (photos_file w) (collections_file w)
    (net w) (disk w) (log w).

(** The loop of [get_collections]: each collection gets the key
    ['photo_count'], computed by a call of its own. *)
Fixpoint add_photo_counts (collections_data : list collection)
  : M (list (collection * nat)) :=
  match collections_data with
  | [] => ret []
  | c :: r =>
      n <- get_collection_photo_count (VInt (c_id c)) ;;
      rest <- add_photo_counts r ;;
      ret ((c, n) :: rest)
  end.

(** [GET /api/collections]; the answer is the success envelope around this
    list. *)
Definition get_collections : M (list (collection * nat)) :=
  collections_data <- load_collections_data ;;
  add_photo_counts collections_data.

(** The loop of [get_photos]: a photo with a truthy [collection_id] gets the
    key ['collection_name'] ([Some] of the looked-up value, which may be
    null); the others do not get the key. *)
Fixpoint add_collection_names (photos_data : list photo)
  : M (list (photo * option (option string))) :=
  match photos_data with
  | [] => ret []
  | p :: r =>
      name <-
        (if truthy (p_collection_id p)
         then n <- get_collection_name (p_collection_id p) ;; ret (Some n)
         else ret None) ;;
      rest <- add_collection_names r ;;
      ret ((p, name) :: rest)
  end.

(** [GET /api/photos]; the collections are loaded once without use before
    the loop. *)
Definition get_photos : M (list (photo * option (option string))) :=
  photos_data <- load_photos_data ;;
  load_collections_data ;;;
  add_collection_names photos_data.

(** The answer of [GET /api/debug]. *)
Record debug_report : Type := mkDebug {
  d_cloudinary_configured : bool;
  d_cloud_name_set : bool;
  d_api_key_set : bool;
  d_api_secret_set : bool;
  d_json_file_exists : bool;
  d_photos_count : nat;
  d_collections_count : nat;
  d_storage_type : string
}.

Definition file_exists {A} (f : file A) : bool :=
  match f with
  | Absent => false
  | Content _ | Corrupt => true
  end.

Definition debug_info (cloud_name api_key api_secret : option string)
  : M debug_report :=
  photos_data <- load_photos_data ;;
  collections_data <- load_collections_data ;;
  configured <- gets cloudinary_configured ;;
  f <- gets photos_file ;;
  ret (mkDebug configured (env_set cloud_name) (env_set api_key)
         (env_set api_secret) (file_exists f) (List.length photos_data)
         (List.length collections_data)
         (if configured then "cloudinary" else "local")).

(** ** Helpers for the properties below *)

(** The number a decimal writes, most significant digit first, continuing
    from [acc]. *)
Fixpoint uint_val (acc : Z) (d : Decimal.uint) : Z :=
  match d with
  | Decimal.Nil => acc
  | Decimal.D0 d => uint_val (10 * acc + 0) d
  | Decimal.D1 d => uint_val (10 * acc + 1) d
  | Decimal.D2 d => uint_val (10 * acc + 2) d
  | Decimal.D3 d => uint_val (10 * acc + 3) d
  | Decimal.D4 d => uint_val (10 * acc + 4) d
  | Decimal.D5 d => uint_val (10 * acc + 5) d
  | Decimal.D6 d => uint_val (10 * acc + 6) d
  | Decimal.D7 d => uint_val (10 * acc + 7) d
  | Decimal.D8 d => uint_val (10 * acc + 8) d
  | Decimal.D9 d => uint_val (10 * acc + 9) d
  end.

(** The [collection_id] a listing shows for an asset whose context was
    written from the value [v]: the number when [v] is truthy and reads as
    one, [None] otherwise. *)
Definition listed_collection_id (v : value) : value :=
  match (if truthy v then py_int v else None) with
  | Some n => VInt n
  | None => VNone
  end.

(** What every photo built from a listing looks like. *)
Definition remote_shaped (p : photo) : Prop :=
  p_storage_type p = "cloudinary" /\
  p_cloudinary_public_id p <> None /\
  p_image_url p = p_cloudinary_url p /\
  (p_collection_id p = VNone \/ exists n, p_collection_id p = VInt n).






(** [collection['name'] = name] on one dictionary. *)
Definition renamed (name : string) (c : collection) : collection :=
  mkCollection (c_id c) name (c_created_date c).

(** No two collections share an id; no two share a name up to letter
    case. *)
Definition unique_ids (l : list collection) : Prop := NoDup (map c_id l).

Definition unique_names (lower : string -> string) (l : list collection)
  : Prop :=
  NoDup (map (fun c => lower (c_name c)) l).

(** A cache in which two collections share the id 1. *)
Definition shared_id_world : World :=
  local_world []
    [mkCollection 1 "x" "2024-01-01T10:00:00";
     mkCollection 1 "y" "2024-01-02T10:00:00"].

(** The remote side of two worlds is the same: the flag, the assets, the
    collections document and the outcomes still to come. *)
Definition same_remote (w w' : World) : Prop :=
  cloudinary_configured w' = cloudinary_configured w /\
  assets w' = assets w /\
  collections_metadata w' = collections_metadata w /\
  net w' = net w.

(** The events of a log that are remote calls. *)
Definition remote_events (l : list event) : list event :=
  filter (fun e => match e with Remote _ _ => true | LocalWrite _ _ => false end) l.

(** The number of loaded photos that [get_collection_photo_count] counts
    for an id. *)
Definition counted (collection_id : Z) (photos_data : list photo) : nat :=
  List.length
    (filter (fun p => py_eq (p_collection_id p) (VInt collection_id))
       photos_data).

(** The remote listing calls in a log. *)
Definition listing_calls (l : list event) : nat :=
  List.length
    (filter (fun e => match e with
                      | Remote ApiResources _ => true
                      | _ => false
                      end) l).

(** The requests for the collections document in a log. *)
Definition document_calls (l : list event) : nat :=
  List.length
    (filter (fun e => match e with
                      | Remote ApiResource _ => true
                      | _ => false
                      end) l).

Definition once_if (b : bool) : nat := if b then 1%nat else 0%nat.

(** What [get_photos] may attach to a photo: no key when the photo has no
    (truthy) collection; otherwise a name or null, and always null when the
    collection is stored as a string. *)
Definition annotation_ok (pa : photo * option (option string)) : Prop :=
  match snd pa with
  | None => truthy (p_collection_id (fst pa)) = false
  | Some name =>
      truthy (p_collection_id (fst pa)) = true /\
      ((exists s, p_collection_id (fst pa) = VStr s) -> name = None)
  end.

(** The check that [update_photo_collection] makes on its target, given the
    loaded collections: a refusal, or the value to store. *)
Definition validated (target : value) (collections_data : list collection)
  : response + value :=
  if truthy target then
    match collections_data with
    | [] => inl (Failure 400 "Invalid collection ID")
    | _ :: _ =>
        match py_int target with
        | None => inl Crash
        | Some n =>
            if existsb (fun c => c_id c =? n) collections_data
            then inr (VInt n)
            else inl (Failure 400 "Invalid collection ID")
        end
    end
  else inr target.

(** [photo['collection_id'] = v] on one dictionary. *)
Definition reassigned (v : value) (p : photo) : photo :=
  mkPhoto (p_id p) (p_filename p) (p_title p) (p_description p) v
    (p_cloudinary_url p) (p_cloudinary_public_id p) (p_image_url p)
    (p_upload_date p) (p_storage_type p).

(** The remote update a reassignment makes for a photo: none when the store
    is not configured or the photo names no asset. *)
Definition remote_update (photo : photo) (v : value) : M bool :=
  configured <- gets cloudinary_configured ;;
  match configured, p_cloudinary_public_id photo with
  | true, Some public_id =>
      uploader_explicit public_id
        (context_of (p_id photo) (p_filename photo) (p_title photo)
           (p_description photo) v (p_upload_date photo))
  | _, _ => ret true
  end.

(** * Properties *)

(** ** Loading: remote first, local cache as fallback *)

Ltac run_monad :=
  unfold run, exec, bind, ret, gets, remote_call, write_photos_file,
    write_collections_file, set_assets, set_collections_metadata in *;
  cbn [fst snd cloudinary_configured assets collections_metadata photos_file
         collections_file net disk log negb] in *.

Lemma load_photos_from_cloudinary_result w :
  run load_photos_from_cloudinary w = remote_photos w.
Proof.
  unfold load_photos_from_cloudinary, remote_photos; run_monad.
  destruct (cloudinary_configured w); simpl; [|reflexivity].
  destruct (next_net w); reflexivity.
Qed.

Lemma load_collections_from_cloudinary_result w :
  run load_collections_from_cloudinary w = remote_collections w.
Proof.
  unfold load_collections_from_cloudinary, remote_collections, second_net.
  run_monad.
  destruct (cloudinary_configured w); simpl.
  - destruct (next_net w), (collections_metadata w); simpl; try reflexivity.
    unfold next_net; simpl. destruct (tl (net w)) as [|[] ?]; reflexivity.
  - destruct (collections_metadata w); reflexivity.
Qed.

(** The remote loaders leave both stores alone. *)
Lemma load_photos_from_cloudinary_frame w :
  let w' := exec load_photos_from_cloudinary w in
  cloudinary_configured w' = cloudinary_configured w /\
  assets w' = assets w /\
  collections_metadata w' = collections_metadata w /\
  photos_file w' = photos_file w /\
  collections_file w' = collections_file w /\
  disk w' = disk w.
Proof.
  unfold load_photos_from_cloudinary; run_monad.
  destruct (cloudinary_configured w) eqn:E; simpl.
  - destruct (next_net w); simpl; rewrite ?E; repeat split; reflexivity.
  - rewrite E; repeat split; reflexivity.
Qed.

Lemma load_collections_from_cloudinary_frame w :
  let w' := exec load_collections_from_cloudinary w in
  cloudinary_configured w' = cloudinary_configured w /\
  assets w' = assets w /\
  collections_metadata w' = collections_metadata w /\
  photos_file w' = photos_file w /\
  collections_file w' = collections_file w /\
  disk w' = disk w.
Proof.
  unfold load_collections_from_cloudinary; run_monad.
  destruct (cloudinary_configured w) eqn:E; simpl.
  - destruct (next_net w), (collections_metadata w) eqn:D; simpl;
      rewrite ?E, ?D; try (repeat split; reflexivity).
    match goal with |- context [next_net ?x] => destruct (next_net x) end;
      simpl; rewrite ?E, ?D; repeat split; reflexivity.
  - rewrite E; repeat split; reflexivity.
Qed.

Lemma load_photos_data_spec w :
  let w' := exec load_photos_data w in
  run load_photos_data w = cached (remote_photos w) (photos_file w) /\
  photos_file w' = refreshed (next_disk w) (remote_photos w) (photos_file w) /\
  cloudinary_configured w' = cloudinary_configured w /\
  assets w' = assets w /\
  collections_metadata w' = collections_metadata w /\
  collections_file w' = collections_file w.
Proof.
  pose proof (load_photos_from_cloudinary_result w) as R.
  pose proof (load_photos_from_cloudinary_frame w) as F.
  unfold load_photos_data, run, exec, bind in *.
  destruct (load_photos_from_cloudinary w) as [l w1]; simpl in R, F.
  destruct F as (Fc & Fa & Fm & Fp & Fl & Fd).
  subst l. unfold cached, refreshed.
  destruct (remote_photos w) as [|p l]; run_monad.
  - rewrite Fp. repeat split; assumption.
  - unfold next_disk. rewrite Fp, Fd. repeat split; assumption.
Qed.

Lemma load_collections_data_spec w :
  let w' := exec load_collections_data w in
  run load_collections_data w
    = cached (remote_collections w) (collections_file w) /\
  collections_file w'
    = refreshed (next_disk w) (remote_collections w) (collections_file w) /\
  cloudinary_configured w' = cloudinary_configured w /\
  assets w' = assets w /\
  collections_metadata w' = collections_metadata w /\
  photos_file w' = photos_file w.
Proof.
  pose proof (load_collections_from_cloudinary_result w) as R.
  pose proof (load_collections_from_cloudinary_frame w) as F.
  unfold load_collections_data, run, exec, bind in *.
  destruct (load_collections_from_cloudinary w) as [l w1]; simpl in R, F.
  destruct F as (Fc & Fa & Fm & Fp & Fl & Fd).
  subst l. unfold cached, refreshed.
  destruct (remote_collections w) as [|c l]; run_monad.
  - rewrite Fl. repeat split; assumption.
  - unfold next_disk. rewrite Fl, Fd. repeat split; assumption.
Qed.

(** C3. A load answers with the remote result when that result has at least
    one entity, and then overwrites the cache file with it as far as the
    write goes; when the store is not configured, the query fails or the
    result is empty, it answers with the content of the cache file, which is
    the empty sequence for a missing or unreadable file, and leaves the file
    as it is.  The same holds for photos and for collections. *)
Theorem load_falls_back_to_local_cache :
  forall w : World,
    let remote := run load_photos_from_cloudinary w in
    let remote' := run load_collections_from_cloudinary w in
    remote
      = (if (cloudinary_configured w && next_net w)%bool
         then listed_photos (assets w) else []) /\
    run load_photos_data w
      = match remote with
        | [] => match photos_file w with
                | Content data => data
                | Absent | Corrupt => []
                end
        | _ :: _ => remote
        end /\
    photos_file (exec load_photos_data w)
      = match remote with
        | [] => photos_file w
        | _ :: _ => match next_disk w with
                    | WriteOk => Content remote
                    | WriteFailOpen => photos_file w
                    | WriteFailDump => Corrupt
                    end
        end /\
    remote'
      = (if (cloudinary_configured w && next_net w && second_net w)%bool
         then match collections_metadata w with Some d => d | None => [] end
         else []) /\
    run load_collections_data w
      = match remote' with
        | [] => match collections_file w with
                | Content data => data
                | Absent | Corrupt => []
                end
        | _ :: _ => remote'
        end /\
    collections_file (exec load_collections_data w)
      = match remote' with
        | [] => collections_file w
        | _ :: _ => match next_disk w with
                    | WriteOk => Content remote'
                    | WriteFailOpen => collections_file w
                    | WriteFailDump => Corrupt
                    end
        end.
Proof.
  intro w; cbv zeta.
  rewrite load_photos_from_cloudinary_result.
  rewrite load_collections_from_cloudinary_result.
  destruct (load_photos_data_spec w) as (Pr & Pf & _).
  destruct (load_collections_data_spec w) as (Cr & Cf & _).
  split; [reflexivity|].
  split.
  { rewrite Pr. unfold cached, read_file.
    destruct (remote_photos w); [destruct (photos_file w)|]; reflexivity. }
  split.
  { rewrite Pf. unfold refreshed, written.
    destruct (remote_photos w); [|destruct (next_disk w)]; reflexivity. }
  split.
  { unfold remote_collections.
    destruct (collections_metadata w);
      destruct (cloudinary_configured w && next_net w && second_net w)%bool;
      reflexivity. }
  split.
  { rewrite Cr. unfold cached, read_file.
    destruct (remote_collections w); [destruct (collections_file w)|];
      reflexivity. }
  rewrite Cf. unfold refreshed, written.
  destruct (remote_collections w); [|destruct (next_disk w)]; reflexivity.
Qed.

(** ** Saving the collections *)

Lemma save_collections_data_spec (data : list collection) (w : World) :
  let w' := exec (save_collections_data data) w in
  run (save_collections_data data) w
    = (if cloudinary_configured w then next_net w else is_ok (next_disk w)) /\
  collections_file w' = written (next_disk w) (collections_file w) data /\
  collections_metadata w'
    = (if (cloudinary_configured w && next_net w)%bool then Some data
       else collections_metadata w) /\
  log w'
    = (log w
       ++ (if cloudinary_configured w then [Remote UploadRaw (next_net w)] else [])
       ++ [LocalWrite LOCAL_COLLECTIONS_FILE (next_disk w)])%list /\
  cloudinary_configured w' = cloudinary_configured w /\
  assets w' = assets w /\
  photos_file w' = photos_file w.
Proof.
  unfold save_collections_data, save_collections_to_cloudinary; run_monad.
  destruct (cloudinary_configured w) eqn:E; simpl.
  - rewrite E; simpl. destruct (next_net w); simpl; rewrite E;
      rewrite <- ?app_assoc; repeat split; reflexivity.
  - rewrite E. repeat split; reflexivity.
Qed.

(** C4. Saving the collection list attempts the local file write whatever
    the remote write did; the value reported is the remote outcome when the
    remote store is configured and the local outcome otherwise; the cache
    file afterwards depends on the local outcome only and the remote
    document on the remote outcome only. *)
Theorem save_collections_independent_stores :
  forall (data : list collection) (w : World),
    let w' := exec (save_collections_data data) w in
    run (save_collections_data data) w
      = (if cloudinary_configured w then next_net w
         else match next_disk w with WriteOk => true | _ => false end) /\
    log w'
      = (log w
         ++ (if cloudinary_configured w
             then [Remote UploadRaw (next_net w)] else [])
         ++ [LocalWrite LOCAL_COLLECTIONS_FILE (next_disk w)])%list /\
    collections_file w'
      = match next_disk w with
        | WriteOk => Content data
        | WriteFailOpen => collections_file w
        | WriteFailDump => Corrupt
        end /\
    collections_metadata w'
      = (if (cloudinary_configured w && next_net w)%bool then Some data
         else collections_metadata w).
Proof.
  intros data w.
  destruct (save_collections_data_spec data w) as (R & F & D & L & _).
  cbv zeta. rewrite R, F, D, L. unfold written, is_ok.
  repeat split; destruct (next_disk w); reflexivity.
Qed.

(** ** ID allocator *)

Lemma fold_left_max_ge (l : list Z) (x : Z) :
  x <= fold_left Z.max l x /\ Forall (fun i => i <= fold_left Z.max l x) l.
Proof.
  revert x; induction l as [|y l IH]; intro x; simpl.
  - split; [lia|constructor].
  - destruct (IH (Z.max x y)) as [H1 H2]. split; [lia|].
    constructor; [lia|exact H2].
Qed.

Lemma fold_left_max_in (l : list Z) (x : Z) :
  fold_left Z.max l x = x \/ In (fold_left Z.max l x) l.
Proof.
  revert x; induction l as [|y l IH]; intro x; simpl.
  - now left.
  - destruct (IH (Z.max x y)) as [H|H].
    + rewrite H. destruct (Z.max_spec x y) as [[_ E]|[_ E]]; rewrite E; auto.
    + now right; right.
Qed.

Lemma py_max_next_id (ids : list Z) :
  is_next_id ids (match py_max ids with None => 1 | Some m => m + 1 end).
Proof.
  destruct ids as [|x r]; simpl; [reflexivity|].
  replace (fold_left Z.max r x + 1 - 1) with (fold_left Z.max r x) by lia.
  destruct (fold_left_max_ge r x) as [H1 H2].
  split.
  - destruct (fold_left_max_in r x) as [H|H]; [left; now rewrite H|now right].
  - constructor; assumption.
Qed.

Lemma get_next_photo_id_result w :
  run get_next_photo_id w
  = match py_max (map p_id (run load_photos_data w)) with
    | None => 1
    | Some m => m + 1
    end.
Proof.
  unfold get_next_photo_id, run, bind.
  destruct (load_photos_data w) as [l w1]; simpl.
  destruct (py_max (map p_id l)); reflexivity.
Qed.

Lemma get_next_collection_id_result w :
  run get_next_collection_id w
  = match py_max (map c_id (run load_collections_data w)) with
    | None => 1
    | Some m => m + 1
    end.
Proof.
  unfold get_next_collection_id, run, bind.
  destruct (load_collections_data w) as [l w1]; simpl.
  destruct (py_max (map c_id l)); reflexivity.
Qed.

Lemma get_next_photo_id_exec w :
  exec get_next_photo_id w = exec load_photos_data w.
Proof.
  unfold get_next_photo_id, exec, bind.
  destruct (load_photos_data w) as [l w1]; simpl.
  destruct (py_max (map p_id l)); reflexivity.
Qed.

Lemma get_next_collection_id_exec w :
  exec get_next_collection_id w = exec load_collections_data w.
Proof.
  unfold get_next_collection_id, exec, bind.
  destruct (load_collections_data w) as [l w1]; simpl.
  destruct (py_max (map c_id l)); reflexivity.
Qed.

(** C2. Both allocators return 1 when the loaded sequence is empty and the
    greatest id plus one otherwise; on the ids 3, 7, 2 they return 8. *)
Theorem next_id_is_max_plus_one :
  (forall w : World,
      is_next_id (map p_id (run load_photos_data w)) (run get_next_photo_id w) /\
      is_next_id (map c_id (run load_collections_data w))
        (run get_next_collection_id w)) /\
  map p_id (run load_photos_data ids_3_7_2) = [3; 7; 2] /\
  run get_next_photo_id ids_3_7_2 = 8 /\
  map c_id (run load_collections_data ids_3_7_2) = [3; 7; 2] /\
  run get_next_collection_id ids_3_7_2 = 8.
Proof.
  split.
  - intro w. rewrite get_next_photo_id_result, get_next_collection_id_result.
    split; apply py_max_next_id.
  - repeat split; reflexivity.
Qed.

(** ** Stable sorting *)

Section StableSortFacts.
Context {A : Type} (before : A -> A -> bool).

Lemma insert_perm (x : A) (l : list A) :
  Permutation (insert before x l) (x :: l).
Proof.
  induction l as [|y l IH]; simpl; [reflexivity|].
  destruct (before y x); [|reflexivity].
  rewrite IH. apply perm_swap.
Qed.

Lemma py_sort_perm (l : list A) : Permutation (py_sort before l) l.
Proof.
  induction l as [|x l IH]; simpl; [reflexivity|].
  rewrite insert_perm. now constructor.
Qed.

(** Elements that [before] never separates keep their input order. *)
Lemma insert_filter (P : A -> bool) (x : A) (l : list A) :
  (forall a b, P a = true -> P b = true -> before a b = false) ->
  filter P (insert before x l) = filter P (x :: l).
Proof.
  intro HP. induction l as [|y l IH]; [reflexivity|].
  cbn [insert]. destruct (before y x) eqn:E; [|reflexivity].
  cbn [filter] in *. rewrite IH.
  destruct (P x) eqn:Px, (P y) eqn:Py; try reflexivity.
  rewrite (HP y x Py Px) in E. discriminate.
Qed.

Lemma py_sort_stable (P : A -> bool) (l : list A) :
  (forall a b, P a = true -> P b = true -> before a b = false) ->
  filter P (py_sort before l) = filter P l.
Proof.
  intro HP. induction l as [|x l IH]; [reflexivity|].
  cbn [py_sort]. rewrite insert_filter by exact HP.
  cbn [filter]. now rewrite IH.
Qed.

Hypothesis before_asym :
  forall a b, before a b = true -> before b a = false.
Hypothesis before_trans :
  forall a b c, before b a = false -> before c b = false -> before c a = false.

Lemma insert_sorted (x : A) (l : list A) :
  StronglySorted (fun a b => before b a = false) l ->
  StronglySorted (fun a b => before b a = false) (insert before x l).
Proof.
  induction 1 as [|y l Hs IH Hall]; simpl.
  - repeat constructor.
  - destruct (before y x) eqn:E.
    + constructor; [exact IH|].
      eapply Permutation_Forall.
      * symmetry. apply insert_perm.
      * constructor; [now apply before_asym|exact Hall].
    + constructor; [now constructor|].
      constructor; [exact E|].
      eapply Forall_impl; [|exact Hall].
      intros z Hz. simpl in Hz. eapply before_trans; eassumption.
Qed.

Lemma py_sort_sorted (l : list A) :
  StronglySorted (fun a b => before b a = false) (py_sort before l).
Proof.
  induction l as [|x l IH]; simpl; [constructor|now apply insert_sorted].
Qed.
End StableSortFacts.

(** ** String order *)

Lemma string_compare_trans (s1 : string) :
  forall s2 s3 : string,
    (s1 ?= s2)%string <> Gt -> (s2 ?= s3)%string <> Gt ->
    (s1 ?= s3)%string <> Gt.
Proof.
  induction s1 as [|a s1 IH]; intros [|b s2] [|c s3]; simpl; try congruence.
  unfold Ascii.compare.
  destruct (N.compare_spec (N_of_ascii a) (N_of_ascii b)),
    (N.compare_spec (N_of_ascii b) (N_of_ascii c)),
    (N.compare_spec (N_of_ascii a) (N_of_ascii c));
    try congruence; try lia; eauto.
Qed.

Lemma string_leb_trans (s1 s2 s3 : string) :
  (s1 <=? s2)%string = true -> (s2 <=? s3)%string = true ->
  (s1 <=? s3)%string = true.
Proof.
  unfold String.leb. intros H1 H2.
  pose proof (string_compare_trans s1 s2 s3) as T.
  destruct (s1 ?= s2)%string, (s2 ?= s3)%string, (s1 ?= s3)%string;
    try reflexivity; try discriminate; exfalso; apply T; congruence.
Qed.

Lemma string_ltb_leb (s1 s2 : string) :
  (s1 <? s2)%string = negb (s2 <=? s1)%string.
Proof.
  unfold String.ltb, String.leb. rewrite (String.compare_antisym s1 s2).
  destruct (s2 ?= s1)%string; reflexivity.
Qed.

Lemma string_ltb_irrefl (s : string) : (s <? s)%string = false.
Proof.
  unfold String.ltb. pose proof (String.compare_antisym s s) as H.
  destruct (s ?= s)%string; simpl in H; try reflexivity; discriminate.
Qed.

Lemma newer_leb (a b : photo) :
  newer b a = false <-> (p_upload_date b <=? p_upload_date a)%string = true.
Proof.
  unfold newer. rewrite string_ltb_leb.
  destruct (p_upload_date b <=? p_upload_date a)%string; simpl; intuition congruence.
Qed.

Lemma newer_asym (a b : photo) : newer a b = true -> newer b a = false.
Proof.
  unfold newer, String.ltb. rewrite (String.compare_antisym (p_upload_date a)).
  destruct (p_upload_date b ?= p_upload_date a)%string; simpl; congruence.
Qed.

Lemma newer_trans (a b c : photo) :
  newer b a = false -> newer c b = false -> newer c a = false.
Proof.
  rewrite !newer_leb. intros H1 H2. eapply string_leb_trans; eassumption.
Qed.

(** ** Listing the photos of a collection *)

Lemma py_str_int_not_None (z : Z) : py_str_int z <> "None".
Proof.
  unfold py_str_int.
  destruct (Z.to_int z) as [d|d]; destruct d; simpl; discriminate.
Qed.

(** The guard [is not None] changes nothing: [str(None)] is not the text of
    a number. *)
Lemma in_collection_str (collection_id : Z) (p : photo) :
  in_collection collection_id p
  = (py_str (p_collection_id p) =? py_str (VInt collection_id))%string.
Proof.
  unfold in_collection. destruct (p_collection_id p); try reflexivity.
  cbn [py_str]. symmetry. apply String.eqb_neq. intro H.
  now apply (py_str_int_not_None collection_id).
Qed.

Lemma find_collection_by_id_existsb (collection_id : Z) (l : list collection) :
  match find_collection_by_id collection_id l with
  | Some c =>
      In c l /\ c_id c = collection_id /\
      existsb (fun c => c_id c =? collection_id) l = true
  | None => existsb (fun c => c_id c =? collection_id) l = false
  end.
Proof.
  unfold find_collection_by_id.
  destruct (find _ l) as [c|] eqn:F.
  - apply find_some in F. destruct F as [Hin Heq].
    repeat split; [exact Hin|now apply Z.eqb_eq|].
    apply existsb_exists. now exists c.
  - apply not_true_is_false. intro H. apply existsb_exists in H.
    destruct H as (c & Hin & Heq).
    pose proof (find_none _ _ F c Hin) as N. simpl in N. congruence.
Qed.

(** C5. For a collection id that no loaded collection carries the listing
    answers 404.  Otherwise it answers with the loaded photos whose
    [collection_id] has the same text as the requested id, each as often as
    it was loaded, ordered by [upload_date] from the greatest string to the
    least, photos with the same date in the order in which they were
    loaded. *)
Theorem list_photos_by_collection_sorted :
  forall (collection_id : Z) (w : World),
    let photos_data := run load_photos_data w in
    let collections_data :=
      run load_collections_data (exec load_photos_data w) in
    let matching :=
      filter (fun p => (py_str (p_collection_id p)
                        =? py_str (VInt collection_id))%string) photos_data in
    if existsb (fun c => c_id c =? collection_id) collections_data then
      exists (out : list photo) (c : collection),
        run (get_collection_photos collection_id) w
          = SuccessPhotos out c (List.length out) /\
        In c collections_data /\ c_id c = collection_id /\
        Permutation out matching /\
        StronglySorted
          (fun a b => (p_upload_date b <=? p_upload_date a)%string = true) out /\
        (forall d : string,
            filter (fun p => (p_upload_date p =? d)%string) out
            = filter (fun p => (p_upload_date p =? d)%string) matching)
    else
      run (get_collection_photos collection_id) w
        = Failure 404 "Collection not found".
Proof.
  intros collection_id w. cbv zeta.
  unfold get_collection_photos, run, exec, bind.
  destruct (load_photos_data w) as [photos_data w1]; simpl.
  destruct (load_collections_data w1) as [collections_data w2]; simpl.
  pose proof (find_collection_by_id_existsb collection_id collections_data) as F.
  destruct (find_collection_by_id collection_id collections_data) as [c|].
  - destruct F as (Hin & Hid & Hex). rewrite Hex.
    rewrite <- (filter_ext _ _ (in_collection_str collection_id)).
    set (matching := filter (in_collection collection_id) photos_data).
    exists (py_sort newer matching), c. simpl.
    repeat split; try assumption.
    + apply py_sort_perm.
    + eapply StronglySorted_ind with
        (P := StronglySorted
                (fun a b => (p_upload_date b <=? p_upload_date a)%string = true)).
      * constructor.
      * intros a l _ IH Hall. constructor; [exact IH|].
        eapply Forall_impl; [|exact Hall]. intros b. apply newer_leb.
      * apply py_sort_sorted; [exact newer_asym|exact newer_trans].
    + intro d. apply py_sort_stable. intros a b Ha Hb.
      apply String.eqb_eq in Ha, Hb. unfold newer. rewrite Ha, Hb.
      apply string_ltb_irrefl.
  - rewrite F. reflexivity.
Qed.

(** ** Collection names *)

Lemma existsb_Exists {A} (f : A -> bool) (l : list A) :
  existsb f l = true <-> Exists (fun x => f x = true) l.
Proof.
  rewrite existsb_exists, Exists_exists. reflexivity.
Qed.

(** C6. With the admin password: a create or rename whose stripped name is
    empty answers 400 and touches nothing.  A create whose name has the same
    lowercase form as the name of a loaded collection answers 400 "already
    exists"; a rename does so when a loaded collection with another id has
    such a name (and 404 when the renamed collection is not loaded at all).
    In both cases the handler has done no more than load the collections:
    nothing is saved and the remote document is the one from before. *)
Theorem collection_name_conflict_rejected :
  forall (lower strip : string -> string) (password name_field : option string)
         (now : string) (collection_id : Z) (w : World),
    authorized password = true ->
    let name := strip (get_default name_field "") in
    let create := create_collection lower strip password name_field now in
    let rename :=
      update_collection lower strip password collection_id name_field in
    let loaded := run load_collections_data w in
    (name = "" ->
     run create w = Failure 400 "Collection name is required" /\
     exec create w = w /\
     run rename w = Failure 400 "Collection name is required" /\
     exec rename w = w) /\
    (name <> "" ->
     Exists (fun c => lower (c_name c) = lower name) loaded ->
     run create w = Failure 400 "Collection name already exists" /\
     exec create w = exec load_collections_data w) /\
    (name <> "" ->
     Exists (fun c => lower (c_name c) = lower name /\ c_id c <> collection_id)
       loaded ->
     run rename w
       = (if existsb (fun c => c_id c =? collection_id) loaded
          then Failure 400 "Collection name already exists"
          else Failure 404 "Collection not found") /\
     exec rename w = exec load_collections_data w) /\
    collections_metadata (exec load_collections_data w)
      = collections_metadata w.
Proof.
  intros lower strip password name_field now collection_id w Hauth.
  cbv zeta. unfold create_collection, update_collection.
  rewrite Hauth. cbn [negb].
  split; [|split; [|split]].
  - intro Hname. rewrite Hname. cbn. repeat split; reflexivity.
  - intros Hname Hdup. apply String.eqb_neq in Hname. rewrite Hname.
    unfold run, exec, bind in *.
    destruct (load_collections_data w) as [loaded w1]; cbn [fst snd] in *.
    assert (E : existsb (same_name lower (strip (get_default name_field "")))
                  loaded = true).
    { apply existsb_Exists. eapply Exists_impl; [|exact Hdup].
      intros c Hc. unfold same_name. now apply String.eqb_eq. }
    rewrite E. split; reflexivity.
  - intros Hname Hdup. apply String.eqb_neq in Hname. rewrite Hname.
    unfold run, exec, bind in *.
    destruct (load_collections_data w) as [loaded w1]; cbn [fst snd] in *.
    pose proof (find_collection_by_id_existsb collection_id loaded) as F.
    destruct (find_collection_by_id collection_id loaded) as [c|].
    + destruct F as (_ & _ & F). rewrite F.
      match goal with
      | |- context [existsb ?f loaded] =>
          assert (E : existsb f loaded = true)
      end.
      { apply existsb_Exists. eapply Exists_impl; [|exact Hdup].
        intros c' [Hc Hid]. unfold same_name.
        apply andb_true_iff. split; [now apply String.eqb_eq|].
        apply negb_true_iff. now apply Z.eqb_neq. }
      rewrite E. split; reflexivity.
    + rewrite F. split; reflexivity.
  - apply load_collections_data_spec.
Qed.

(** The rejection at work on [weddings_world]: a create and a rename that
    collide with "Weddings", and a create with a blank name. *)
Lemma collection_name_conflict_witness :
  run (create_collection ascii_lower ascii_strip admin (Some " weddings ")
         "2024-03-01T12:00:00") weddings_world
    = Failure 400 "Collection name already exists" /\
  run (update_collection ascii_lower ascii_strip admin 2 (Some "WEDDINGS"))
    weddings_world
    = Failure 400 "Collection name already exists" /\
  run (create_collection ascii_lower ascii_strip admin (Some "   ")
         "2024-03-01T12:00:00") weddings_world
    = Failure 400 "Collection name is required".
Proof.
  split; [|split].
  - destruct (collection_name_conflict_rejected ascii_lower ascii_strip admin
                (Some " weddings ") "2024-03-01T12:00:00" 2 weddings_world
                eq_refl) as (_ & Hcreate & _).
    apply Hcreate.
    + intro E; vm_compute in E; discriminate E.
    + vm_compute. apply Exists_cons_hd. reflexivity.
  - destruct (collection_name_conflict_rejected ascii_lower ascii_strip admin
                (Some "WEDDINGS") "2024-03-01T12:00:00" 2 weddings_world
                eq_refl) as (_ & _ & Hrename & _).
    apply Hrename.
    + intro E; vm_compute in E; discriminate E.
    + vm_compute. apply Exists_cons_hd. split; [reflexivity|discriminate].
  - destruct (collection_name_conflict_rejected ascii_lower ascii_strip admin
                (Some "   ") "2024-03-01T12:00:00" 2 weddings_world eq_refl)
      as (Hempty & _).
    apply Hempty. reflexivity.
Defined.

(** ** Counting and naming across type drift *)

(** What the two linker functions compute: the count compares with [==],
    the name lookup as well. *)
Lemma get_collection_photo_count_result (collection_id : value) (w : World) :
  run (get_collection_photo_count collection_id) w
  = List.length (filter (fun p => py_eq (p_collection_id p) collection_id)
                   (run load_photos_data w)).
Proof.
  unfold get_collection_photo_count, run, bind.
  destruct (load_photos_data w); reflexivity.
Qed.

(** C1. The claim fails on the code: with one photo stored under the
    string "3" and one under the integer 3, [get_collection_photo_count]
    counts one photo for the integer 3 and one for the string "3", where
    the comparison through [str] (the one [get_collection_photos] makes)
    finds two; and [get_collection_name] finds "Weddings" for the integer 3
    but nothing for the string "3". *)
Theorem photo_count_ignores_type_drift :
  map p_collection_id (run load_photos_data drift_world)
    = [VStr "3"; VInt 3] /\
  run (get_collection_photo_count (VInt 3)) drift_world = 1%nat /\
  run (get_collection_photo_count (VStr "3")) drift_world = 1%nat /\
  List.length
    (filter (fun p => (py_str (p_collection_id p) =? py_str (VInt 3))%string)
       (run load_photos_data drift_world)) = 2%nat /\
  (exists out c,
      run (get_collection_photos 3) drift_world = SuccessPhotos out c 2) /\
  run (get_collection_name (VInt 3)) drift_world = Some "Weddings" /\
  run (get_collection_name (VStr "3")) drift_world = None.
Proof.
  repeat split; try reflexivity.
  vm_compute. eexists _, _. reflexivity.
Qed.

(** ** Reassigning a photo *)

Lemma run_exec_pair {A} (m : M A) (w : World) : m w = (run m w, exec m w).
Proof. unfold run, exec. destruct (m w); reflexivity. Qed.

(** A target that passes [if collection_id:] and names no loaded collection
    is refused before any photo is touched. *)
Lemma reassign_truthy_unknown_target_refused
  (password : option string) (photo_id : Z) (collection_id : value) (w : World) :
  authorized password = true ->
  truthy collection_id = true ->
  (forall n, py_int collection_id = Some n ->
             existsb (fun c => c_id c =? n) (run load_collections_data w) = false) ->
  let r := update_photo_collection password photo_id collection_id in
  succeeded (run r w) = false /\
  exec r w = exec load_collections_data w.
Proof.
  intros Hauth Htruthy Hunknown. cbv zeta.
  unfold update_photo_collection. rewrite Hauth, Htruthy. cbn [negb].
  unfold run, exec, bind in *.
  destruct (load_collections_data w) as [[|c l] w1]; cbn [fst snd] in *.
  - split; reflexivity.
  - destruct (py_int collection_id) as [n|]; [|split; reflexivity].
    rewrite (Hunknown n eq_refl). split; reflexivity.
Qed.

(** When the remote context update fails (the call raises or the asset is
    unknown) the handler answers 500; the cache file is the one the
    preceding load left and the remote assets are untouched.  [w1] is the
    world in which the photos are loaded: [w] itself for a target that is
    not validated, the world after the collection load otherwise. *)
Lemma reassign_remote_failure_not_mirrored
  (password : option string) (photo_id : Z) (collection_id : value)
  (w w1 : World) (photo : photo) (public_id : string) :
  authorized password = true ->
  (truthy collection_id = false /\ w1 = w) \/
  (truthy collection_id = true /\ w1 = exec load_collections_data w /\
   exists n, py_int collection_id = Some n /\
             existsb (fun c => c_id c =? n) (run load_collections_data w)
             = true) ->
  find_photo photo_id (run load_photos_data w1) = Some photo ->
  cloudinary_configured w = true ->
  p_cloudinary_public_id photo = Some public_id ->
  next_net (exec load_photos_data w1) = false \/
  has_asset public_id (assets w) = false ->
  let r := update_photo_collection password photo_id collection_id in
  run r w = Failure 500 "Failed to update photo in Cloudinary" /\
  photos_file (exec r w) = photos_file (exec load_photos_data w1) /\
  assets (exec r w) = assets w.
Proof.
  intros Hauth Hvalid Hfind Hconf Hpub Hfail. cbv zeta.
  assert (Hw1 : cloudinary_configured w1 = true /\ assets w1 = assets w).
  { destruct Hvalid as [[_ ->]|(_ & -> & _)]; [split; [assumption|reflexivity]|].
    destruct (load_collections_data_spec w) as (_ & _ & C & A & _).
    split; congruence. }
  destruct Hw1 as [Hc1 Ha1].
  destruct (load_photos_data_spec w1) as (_ & _ & Hc & Ha & _).
  rewrite Hc1 in Hc. rewrite Ha1 in Ha.
  assert (tail : forall cid : value,
    let k :=
      (photos_data <- load_photos_data ;;
       match find_photo photo_id photos_data with
       | None => ret (Failure 404 "Photo not found")
       | Some photo =>
           configured <- gets cloudinary_configured ;;
           updated <-
             match configured, p_cloudinary_public_id photo with
             | true, Some public_id =>
                 uploader_explicit public_id
                   (context_of (p_id photo) (p_filename photo) (p_title photo)
                      (p_description photo) cid (p_upload_date photo))
             | _, _ => ret true
             end ;;
           if negb updated
           then ret (Failure 500 "Failed to update photo in Cloudinary")
           else
             write_photos_file (assign_collection photo_id cid photos_data) ;;;
             ret Success
       end) in
    fst (k w1) = Failure 500 "Failed to update photo in Cloudinary" /\
    photos_file (snd (k w1)) = photos_file (exec load_photos_data w1) /\
    assets (snd (k w1)) = assets w).
  { intro cid. cbv zeta.
    match goal with |- fst ?t = _ /\ _ => remember t as res eqn:E end.
    unfold bind at 1 in E.
    rewrite (run_exec_pair load_photos_data w1) in E.
    rewrite Hfind in E. unfold bind at 1, gets at 1 in E.
    rewrite Hc, Hpub in E.
    unfold uploader_explicit, bind, remote_call, gets, set_assets, ret in E.
    cbn [fst snd assets] in E. rewrite Ha in E.
    destruct Hfail as [Hnet|Hasset].
    - rewrite Hnet in E. cbn in E. subst res. cbn. repeat split.
    - rewrite Hasset, andb_false_r in E. cbn in E. subst res. cbn.
      repeat split. }
  unfold update_photo_collection. rewrite Hauth. cbn [negb].
  unfold run, exec.
  match goal with |- fst ?t = _ /\ _ => remember t as res eqn:E end.
  unfold bind at 1 in E.
  destruct Hvalid as [[Hfalsy ->]|(Htruthy & -> & n & Hint & Hex)].
  - rewrite Hfalsy in E. unfold ret at 1 in E. cbv beta iota in E.
    subst res. exact (tail collection_id).
  - rewrite Htruthy in E. unfold bind at 1 in E.
    rewrite (run_exec_pair load_collections_data w) in E.
    destruct (run load_collections_data w) as [|c l]; [discriminate|].
    rewrite Hint, Hex in E. unfold ret at 1 in E. cbv beta iota in E.
    subst res. exact (tail (VInt n)).
Qed.

(** C7. The claim fails on the code for the target 0: the integer 0 is not
    null and names no collection, yet the handler skips the validation,
    answers success, writes [collection_id] 0 to the cache and the empty
    string to the remote context.  The string "0" and the integer 9 are
    refused. *)
Theorem reassign_to_zero_is_accepted :
  let w := remote_world [] in
  let r := update_photo_collection admin 1 (VInt 0) in
  map c_id (run load_collections_data w) = [3] /\
  map p_collection_id (run load_photos_data w) = [VInt 3] /\
  run r w = Success /\
  map p_collection_id (read_file (photos_file (exec r w))) = [VInt 0] /\
  map (fun a => match r_context a with
                | Some ctx => ctx_get "collection_id" ctx
                | None => None
                end) (assets (exec r w)) = [Some ""] /\
  run (update_photo_collection admin 1 (VStr "0")) w
    = Failure 400 "Invalid collection ID" /\
  run (update_photo_collection admin 1 (VInt 9)) w
    = Failure 400 "Invalid collection ID".
Proof.
  repeat split; reflexivity.
Qed.

(** ** Uploading a photo *)

Lemma get_next_photo_id_pair (w : World) :
  get_next_photo_id w = (run get_next_photo_id w, exec load_photos_data w).
Proof.
  rewrite <- get_next_photo_id_exec. unfold run, exec.
  destruct (get_next_photo_id w); reflexivity.
Qed.

(** What a successful upload has done: possibly loaded the collections, then
    loaded the photos to allocate the id, then stored the asset remotely. *)
Lemma upload_success_inv (lower : string -> string) (q : upload_request)
  (w : World) (p : photo) :
  run (upload_photo lower q) w = SuccessPhoto p ->
  exists (w1 : World) (filename : string) (collection_id : value),
    (w1 = w \/ w1 = exec load_collections_data w) /\
    u_filename q = Some filename /\
    filename <> "" /\
    let w2 := exec load_photos_data w1 in
    let photo_id := run get_next_photo_id w1 in
    let public_id :=
      "georges_photo_gallery/" ++
      ("photo_" ++ py_str_int photo_id ++ "_"
       ++ unique_filename lower (u_uuid_hex q) filename) in
    cloudinary_configured w2 = true /\
    next_net w2 = true /\
    p = mkPhoto photo_id filename (get_default (u_title q) "Untitled")
          (get_default (u_description q) "") collection_id (u_secure_url q)
          (Some public_id) (u_secure_url q) (u_now_record q) "cloudinary" /\
    photos_file (exec (upload_photo lower q) w) = photos_file w2 /\
    collections_file (exec (upload_photo lower q) w) = collections_file w2 /\
    assets (exec (upload_photo lower q) w)
      = mkResource public_id (u_secure_url q) (Some (u_created_at q))
          (Some (context_of photo_id filename (get_default (u_title q) "Untitled")
                   (get_default (u_description q) "") collection_id
                   (u_now_context q)))
        :: filter (fun r => negb (r_public_id r =? public_id)%string) (assets w2).
Proof.
  unfold upload_photo.
  destruct (authorized (u_password q)); cbn [negb]; [|discriminate].
  assert (tail : forall (w1 : World) (collection_id : value),
    w1 = w \/ w1 = exec load_collections_data w ->
    forall k : M response,
      k = (match u_filename q with
           | None => ret (Failure 400 "No photo file provided")
           | Some filename =>
               if (filename =? "")%string
               then ret (Failure 400 "No photo file selected")
               else
                 let unique := unique_filename lower (u_uuid_hex q) filename in
                 photo_id <- get_next_photo_id ;;
                 configured <- gets cloudinary_configured ;;
                 if configured then
                   result <-
                     uploader_upload
                       ("photo_" ++ py_str_int photo_id ++ "_" ++ unique)
                       (context_of photo_id filename
                          (get_default (u_title q) "Untitled")
                          (get_default (u_description q) "")
                          collection_id (u_now_context q))
                       (u_secure_url q) (u_created_at q) ;;
                   match result with
                   | Some (secure_url, public_id) =>
                       ret (SuccessPhoto
                              (mkPhoto photo_id filename
                                 (get_default (u_title q) "Untitled")
                                 (get_default (u_description q) "")
                                 collection_id secure_url (Some public_id)
                                 secure_url (u_now_record q) "cloudinary"))
                   | None => ret (Failure 500 "Upload failed: ")
                   end
                 else ret (Failure 500 "Cloudinary not configured")
           end) ->
      fst (k w1) = SuccessPhoto p ->
      exists (w1' : World) (filename : string) (collection_id' : value),
        (w1' = w \/ w1' = exec load_collections_data w) /\
        u_filename q = Some filename /\
        filename <> "" /\
        let w2 := exec load_photos_data w1' in
        let photo_id := run get_next_photo_id w1' in
        let public_id :=
          "georges_photo_gallery/" ++
          ("photo_" ++ py_str_int photo_id ++ "_"
           ++ unique_filename lower (u_uuid_hex q) filename) in
        cloudinary_configured w2 = true /\
        next_net w2 = true /\
        p = mkPhoto photo_id filename (get_default (u_title q) "Untitled")
              (get_default (u_description q) "") collection_id' (u_secure_url q)
              (Some public_id) (u_secure_url q) (u_now_record q) "cloudinary" /\
        photos_file (snd (k w1)) = photos_file w2 /\
        collections_file (snd (k w1)) = collections_file w2 /\
        assets (snd (k w1))
          = mkResource public_id (u_secure_url q) (Some (u_created_at q))
              (Some (context_of photo_id filename
                       (get_default (u_title q) "Untitled")
                       (get_default (u_description q) "") collection_id'
                       (u_now_context q)))
            :: filter (fun r => negb (r_public_id r =? public_id)%string)
                 (assets w2)).
  { intros w1 collection_id Hw1 k ->.
    destruct (u_filename q) as [filename|]; [|discriminate].
    destruct (filename =? "")%string eqn:Hne; [discriminate|].
    apply String.eqb_neq in Hne. cbv zeta.
    match goal with |- fst ?t = _ -> _ => remember t as res eqn:E end.
    unfold bind at 1 in E. rewrite get_next_photo_id_pair in E.
    unfold bind, gets in E.
    destruct (cloudinary_configured (exec load_photos_data w1)) eqn:Hc;
      [|subst res; discriminate].
    unfold uploader_upload, bind, remote_call, gets, set_assets, ret in E.
    cbn [fst snd assets] in E.
    destruct (next_net (exec load_photos_data w1)) eqn:Hn;
      [|subst res; discriminate].
    subst res. cbn [fst snd assets photos_file collections_file].
    intro H. inversion H; subst p; clear H.
    exists w1, filename, collection_id.
    repeat split; try assumption; reflexivity. }
  unfold run, exec.
  match goal with |- fst ?t = _ -> _ => remember t as res eqn:E end.
  unfold bind at 1 in E.
  destruct (u_collection_id q) as [s|].
  - destruct (s =? "")%string.
    + unfold ret at 1 in E. cbv beta iota in E. subst res.
      match goal with
      | |- fst (?k0 _) = _ -> _ =>
          exact (tail w VNone (or_introl eq_refl) k0 eq_refl)
      end.
    + destruct (py_int_str s) as [n|]; [|subst res; discriminate].
      unfold bind at 1 in E.
      pose proof (eq_refl (exec load_collections_data w)) as Hw1.
      unfold exec at 1 in Hw1.
      destruct (load_collections_data w) as [l w1]; cbn [snd] in Hw1.
      destruct (existsb (fun c => c_id c =? n) l); [|subst res; discriminate].
      unfold ret at 1 in E. cbv beta iota in E. subst res.
      cbn [snd]. subst w1.
      match goal with
      | |- fst (?k0 _) = _ -> _ =>
          exact (tail (exec load_collections_data w) (VInt n)
                   (or_intror eq_refl) k0 eq_refl)
      end.
  - unfold ret at 1 in E. cbv beta iota in E. subst res.
    match goal with
    | |- fst (?k0 _) = _ -> _ =>
        exact (tail w VNone (or_introl eq_refl) k0 eq_refl)
    end.
Qed.

Lemma rsplit_dot_none (s : string) :
  (forall c, In c (list_ascii_of_string s) -> c <> "."%char) ->
  rsplit_dot s = None.
Proof.
  induction s as [|a s IH]; simpl; intro H; [reflexivity|].
  rewrite IH by (intros c Hc; apply H; now right).
  destruct (Ascii.eqb_spec a "."); [|reflexivity].
  exfalso. apply (H a); [now left|assumption].
Qed.

(** C8, counterexample.  A title submitted as the empty string is kept: the
    record of the upload [empty_title_upload] has the title "", not
    "Untitled". *)
Lemma upload_empty_title_is_kept :
  u_title empty_title_upload = Some "" /\
  exists p : photo,
    run (upload_photo ascii_lower empty_title_upload) (remote_world [])
      = SuccessPhoto p /\
    p_title p = "" /\
    p_title p <> "Untitled".
Proof.
  split; [reflexivity|].
  eexists. split; [vm_compute; reflexivity|].
  split; [reflexivity|discriminate].
Qed.

(** C8, amended.  The record of a successful upload carries the submitted
    title, and "Untitled" when the request has no title field.  The asset
    is stored under [photo_<id>_<unique filename>]; when the original
    filename contains no dot, the unique filename is the random token
    followed by ".jpg". *)
Theorem upload_title_and_extension_defaults :
  forall (lower : string -> string) (q : upload_request) (w : World) (p : photo),
    run (upload_photo lower q) w = SuccessPhoto p ->
    p_title p = match u_title q with Some t => t | None => "Untitled" end /\
    exists filename : string,
      u_filename q = Some filename /\
      p_filename p = filename /\
      p_cloudinary_public_id p
        = Some ("georges_photo_gallery/photo_" ++ py_str_int (p_id p) ++ "_"
                ++ unique_filename lower (u_uuid_hex q) filename) /\
      has_asset ("georges_photo_gallery/photo_" ++ py_str_int (p_id p) ++ "_"
                 ++ unique_filename lower (u_uuid_hex q) filename)
        (assets (exec (upload_photo lower q) w)) = true /\
      ((forall c, In c (list_ascii_of_string filename) -> c <> "."%char) ->
       unique_filename lower (u_uuid_hex q) filename
         = u_uuid_hex q ++ ".jpg").
Proof.
  intros lower q w p H.
  destruct (upload_success_inv lower q w p H)
    as (w1 & filename & cid & _ & Hf & _ & Hrest).
  cbv zeta in Hrest. destruct Hrest as (_ & _ & Hp & _ & _ & Ha).
  split; [subst p; destruct (u_title q); reflexivity|].
  exists filename. split; [exact Hf|].
  split; [subst p; reflexivity|].
  split; [subst p; reflexivity|].
  split.
  - rewrite Ha. subst p. cbn [p_id has_asset existsb r_public_id].
    apply orb_true_iff. left. apply String.eqb_refl.
  - intro Hdot. unfold unique_filename, file_extension.
    now rewrite (rsplit_dot_none filename Hdot).
Qed.

(** An upload without title field of a file named "holiday". *)
Lemma upload_title_and_extension_witness :
  exists p : photo,
    run (upload_photo ascii_lower untitled_upload) (remote_world [])
      = SuccessPhoto p /\
    p_title p = "Untitled" /\
    p_cloudinary_public_id p
      = Some "georges_photo_gallery/photo_2_0123abcd.jpg".
Proof.
  eexists. split; [vm_compute; reflexivity|].
  destruct (upload_title_and_extension_defaults ascii_lower untitled_upload
              (remote_world []) _ eq_refl)
    as (Ht & filename & Hf & _ & Hp & _ & Hext).
  split; [exact Ht|].
  injection Hf as <-.
  rewrite Hext in Hp; [exact Hp|].
  intros c Hc. vm_compute in Hc.
  repeat (destruct Hc as [<-|Hc]; [discriminate|]). contradiction.
Defined.

Lemma remote_photos_cases (w : World) :
  remote_photos w = [] \/ remote_photos w = listed_photos (assets w).
Proof.
  unfold remote_photos.
  destruct (cloudinary_configured w && next_net w)%bool; auto.
Qed.

Lemma next_photo_id_is_fresh (w : World) (p : photo) :
  In p (run load_photos_data w) -> p_id p < run get_next_photo_id w.
Proof.
  intro Hin. pose proof (py_max_next_id (map p_id (run load_photos_data w))) as N.
  rewrite <- get_next_photo_id_result in N.
  apply (in_map p_id) in Hin.
  destruct (map p_id (run load_photos_data w)) as [|x l]; [contradiction|].
  destruct N as [_ N]. rewrite Forall_forall in N.
  specialize (N _ Hin). simpl in N. lia.
Qed.

(** C10, counterexample.  The upload loads the photos to allocate the id,
    and that load writes the remote listing to the cache: the cache file,
    missing before the upload, holds the photo listed before afterwards. *)
Lemma upload_refreshes_photo_cache :
  let w := remote_world [] in
  let upload := upload_photo ascii_lower untitled_upload in
  photos_file w = Absent /\
  (exists p, run upload w = SuccessPhoto p /\ p_id p = 2) /\
  map p_id (read_file (photos_file (exec upload w))) = [1] /\
  photos_file (exec upload w) <> photos_file w.
Proof.
  cbv zeta. split; [reflexivity|].
  split; [eexists; split; vm_compute; reflexivity|].
  split; [reflexivity|].
  vm_compute. discriminate.
Qed.

(** C10, amended.  After a successful upload the photo cache is the file
    from before or, when the load that allocates the id got a non-empty
    remote listing, the result of writing that listing (taken before the
    upload) to it; the new record is never written.  The metadata is on the
    remote asset as its context.  A load that finds the store unreachable
    afterwards serves that cache: each photo it returns was in the cache
    before the upload or was listed remotely before it with a smaller id
    than the new photo's. *)
Theorem upload_writes_no_local_metadata :
  forall (lower : string -> string) (q : upload_request) (w : World) (p : photo),
    run (upload_photo lower q) w = SuccessPhoto p ->
    let w' := exec (upload_photo lower q) w in
    (photos_file w' = photos_file w \/
     exists res : write_outcome,
       listed_photos (assets w) <> [] /\
       photos_file w'
         = written res (photos_file w) (listed_photos (assets w))) /\
    (exists a : resource,
        In a (assets w') /\
        Some (r_public_id a) = p_cloudinary_public_id p /\
        r_context a
          = Some (context_of (p_id p) (p_filename p) (p_title p)
                    (p_description p) (p_collection_id p) (u_now_context q))) /\
    (forall w'' : World,
        photos_file w'' = photos_file w' ->
        (cloudinary_configured w'' && next_net w'')%bool = false ->
        run load_photos_data w'' = read_file (photos_file w') /\
        Forall (fun p' =>
                  In p' (read_file (photos_file w)) \/
                  (In p' (listed_photos (assets w)) /\ p_id p' < p_id p))
          (run load_photos_data w'')).
Proof.
  intros lower q w p H.
  destruct (upload_success_inv lower q w p H)
    as (w1 & filename & cid & Hw1 & Hf & _ & Hrest).
  cbv zeta in Hrest |- *.
  destruct Hrest as (_ & _ & Hp & Hfile & _ & Ha).
  assert (Hframe : photos_file w1 = photos_file w /\ assets w1 = assets w).
  { destruct Hw1 as [->| ->]; [split; reflexivity|].
    destruct (load_collections_data_spec w) as (_ & _ & _ & A & _ & P).
    split; assumption. }
  destruct Hframe as [Hpf Has].
  destruct (load_photos_data_spec w1) as (Hload & Hcache & _).
  rewrite Hpf in Hload, Hcache. rewrite Hcache in Hfile.
  assert (Hid : p_id p = run get_next_photo_id w1) by (subst p; reflexivity).
  assert (Hcases :
    (photos_file (exec (upload_photo lower q) w) = photos_file w /\
     run load_photos_data w1 = read_file (photos_file w)) \/
    (listed_photos (assets w) <> [] /\
     photos_file (exec (upload_photo lower q) w)
       = written (next_disk w1) (photos_file w) (listed_photos (assets w)) /\
     run load_photos_data w1 = listed_photos (assets w))).
  { destruct (remote_photos_cases w1) as [E|E].
    - left. rewrite E in *. split; assumption.
    - rewrite Has in E. rewrite E in *. unfold refreshed, cached in *.
      destruct (listed_photos (assets w)) as [|x l] eqn:L.
      + left. split; assumption.
      + right. split; [discriminate|]. split; assumption. }
  split; [|split].
  - destruct Hcases as [[Hc _]|(Hne & Hc & _)]; [now left|].
    right. exists (next_disk w1). split; assumption.
  - eexists. split; [rewrite Ha; left; reflexivity|].
    subst p. split; reflexivity.
  - intros w'' Hsame Hdown.
    destruct (load_photos_data_spec w'') as (Hload'' & _).
    assert (Hr : remote_photos w'' = []) by (unfold remote_photos; now rewrite Hdown).
    rewrite Hr in Hload''. cbn [cached] in Hload''.
    rewrite Hsame in Hload''. split; [exact Hload''|].
    rewrite Hload''. apply Forall_forall. intros p' Hin.
    destruct Hcases as [[Hc _]|(_ & Hc & HL)].
    + left. now rewrite Hc in Hin.
    + rewrite Hc in Hin. unfold written in Hin.
      destruct (next_disk w1); cbn [read_file] in Hin.
      * right. split; [exact Hin|].
        rewrite Hid. apply next_photo_id_is_fresh. now rewrite HL.
      * now left.
      * contradiction.
Qed.

(** After the upload of photo 2 a load that cannot reach the store serves
    the cache, which holds photo 1 only. *)
Lemma upload_writes_no_local_metadata_witness :
  let w' := exec (upload_photo ascii_lower untitled_upload) (remote_world []) in
  map p_id (run load_photos_data (with_outcomes [false] [] w')) = [1].
Proof.
  cbv zeta.
  destruct (upload_writes_no_local_metadata ascii_lower untitled_upload
              (remote_world [])
              (mkPhoto 2 "holiday" "Untitled" "" VNone
                 "https://res.example/new.jpg"
                 (Some "georges_photo_gallery/photo_2_0123abcd.jpg")
                 "https://res.example/new.jpg" "2024-02-01T08:00:01"
                 "cloudinary") eq_refl) as (_ & _ & Hload).
  destruct (Hload (with_outcomes [false] []
                     (exec (upload_photo ascii_lower untitled_upload)
                        (remote_world []))) eq_refl eq_refl) as [E _].
  rewrite E. reflexivity.
Defined.

(** ** Deleting a photo *)

Lemma find_photo_existsb (photo_id : Z) (l : list photo) :
  match find_photo photo_id l with
  | Some p =>
      In p l /\ p_id p = photo_id /\
      existsb (fun p => p_id p =? photo_id) l = true
  | None =>
      existsb (fun p => p_id p =? photo_id) l = false /\ lacks photo_id l
  end.
Proof.
  unfold find_photo, lacks.
  destruct (find _ l) as [p|] eqn:F.
  - apply find_some in F. destruct F as [Hin Heq].
    repeat split; [exact Hin|now apply Z.eqb_eq|].
    apply existsb_exists. now exists p.
  - split.
    + apply not_true_is_false. intro H. apply existsb_exists in H.
      destruct H as (p & Hin & Heq).
      pose proof (find_none _ _ F p Hin) as N. simpl in N. congruence.
    + apply Forall_forall. intros p Hin.
      pose proof (find_none _ _ F p Hin) as N. simpl in N.
      now apply Z.eqb_neq.
Qed.

Lemma lacks_find_photo (photo_id : Z) (l : list photo) :
  lacks photo_id l -> find_photo photo_id l = None.
Proof.
  intro H. pose proof (find_photo_existsb photo_id l) as F.
  destruct (find_photo photo_id l) as [p|]; [|reflexivity].
  destruct F as (Hin & Hid & _). unfold lacks in H.
  rewrite Forall_forall in H. now destruct (H p Hin).
Qed.

Lemma lacks_filter (photo_id : Z) (l : list photo) :
  lacks photo_id (filter (fun p => negb (p_id p =? photo_id)) l).
Proof.
  apply Forall_forall. intros p Hin. apply filter_In in Hin.
  destruct Hin as [_ H]. apply negb_true_iff in H. now apply Z.eqb_neq.
Qed.

Lemma delete_photo_spec (password : option string) (photo_id : Z) (w : World) :
  authorized password = true ->
  let del := delete_photo password photo_id in
  let w1 := exec load_photos_data w in
  match find_photo photo_id (run load_photos_data w) with
  | None => run del w = Failure 404 "Photo not found" /\ exec del w = w1
  | Some photo =>
      run del w = Success /\
      photos_file (exec del w)
        = written (next_disk w1) (photos_file w1)
            (filter (fun p => negb (p_id p =? photo_id))
               (run load_photos_data w)) /\
      assets (exec del w) = after_destroy photo w1 /\
      cloudinary_configured (exec del w) = cloudinary_configured w1
  end.
Proof.
  intro Hauth. cbv zeta. unfold delete_photo, after_destroy.
  rewrite Hauth. cbn [negb].
  unfold run, exec, bind.
  destruct (load_photos_data w) as [photos_data w1]; cbn [fst snd].
  destruct (find_photo photo_id photos_data) as [photo|]; [|split; reflexivity].
  unfold gets.
  destruct (cloudinary_configured w1) eqn:Hc;
    [destruct (p_cloudinary_public_id photo) as [public_id|]|].
  - unfold uploader_destroy, bind, remote_call, gets, set_assets, ret,
      write_photos_file.
    cbn [fst snd assets].
    destruct (next_net w1); cbn; rewrite ?Hc; repeat split; reflexivity.
  - cbn. rewrite Hc. repeat split; reflexivity.
  - cbn. rewrite Hc. repeat split; reflexivity.
Qed.

(** *** A photo that is gone stays gone *)

Lemma gone_with_outcomes (photo_id : Z) (n : list bool)
  (d : list write_outcome) (w : World) :
  gone photo_id w -> gone photo_id (with_outcomes n d w).
Proof. intro H. exact H. Qed.

Lemma gone_load (photo_id : Z) (w : World) :
  gone photo_id w ->
  lacks photo_id (run load_photos_data w) /\
  gone photo_id (exec load_photos_data w).
Proof.
  intros [Hremote Hlocal].
  destruct (load_photos_data_spec w) as (Hr & Hf & Hc & Ha & _).
  assert (R : lacks photo_id (remote_photos w)).
  { unfold remote_photos.
    destruct (cloudinary_configured w) eqn:C; cbn [andb]; [|constructor].
    destruct (next_net w); [now apply Hremote|constructor]. }
  split.
  - rewrite Hr. unfold cached.
    destruct (remote_photos w); assumption.
  - split.
    + rewrite Hc, Ha. exact Hremote.
    + rewrite Hf. unfold refreshed.
      destruct (remote_photos w) as [|x l]; [exact Hlocal|].
      unfold written. destruct (next_disk w); cbn [read_file];
        [exact R|exact Hlocal|constructor].
Qed.

Lemma gone_loads (photo_id : Z)
  (schedule : list (list bool * list write_outcome)) :
  forall w : World, gone photo_id w -> gone photo_id (loads schedule w).
Proof.
  induction schedule as [|[n d] s IH]; intros w H; cbn [loads]; [exact H|].
  apply IH. apply gone_load. now apply gone_with_outcomes.
Qed.

Lemma gone_delete_not_found (password : option string) (photo_id : Z)
  (w : World) :
  authorized password = true ->
  gone photo_id w ->
  run (delete_photo password photo_id) w = Failure 404 "Photo not found".
Proof.
  intros Hauth H.
  pose proof (delete_photo_spec password photo_id w Hauth) as D.
  cbv zeta in D.
  rewrite (lacks_find_photo _ _ (proj1 (gone_load photo_id w H))) in D.
  apply D.
Qed.

(** *** Remote listings whose assets carry distinct ids *)

Lemma photo_of_resource_explicit (acc : list photo) (r : resource) (i : Z) :
  asset_id r = Some i ->
  exists p, photo_of_resource acc r = Some p /\
            p_id p = i /\
            p_cloudinary_public_id p = Some (r_public_id r).
Proof.
  unfold asset_id, photo_of_resource. intro H.
  destruct (r_context r) as [ctx|]; [|discriminate].
  destruct (ctx_get "id" ctx) as [s|]; [|discriminate].
  rewrite H. eexists. repeat split.
Qed.

Lemma photos_of_resources_explicit (rs : list resource) :
  forall (acc : list photo) (ids : list Z),
    map asset_id rs = map Some ids ->
    exists ps,
      photos_of_resources acc rs = Some (acc ++ ps)%list /\
      Forall2 (fun r p => asset_id r = Some (p_id p) /\
                          p_cloudinary_public_id p = Some (r_public_id r))
        rs ps.
Proof.
  induction rs as [|r rs IH]; intros acc ids H.
  - exists []. rewrite app_nil_r. split; [reflexivity|constructor].
  - destruct ids as [|i ids]; [discriminate|].
    cbn [map] in H. injection H as Hr Hrs.
    destruct (photo_of_resource_explicit acc r i Hr) as (p & Hp & Hid & Hpub).
    destruct (IH (acc ++ [p])%list ids Hrs) as (ps & Hps & Hall).
    exists (p :: ps). cbn [photos_of_resources]. rewrite Hp, Hps.
    rewrite <- app_assoc. split; [reflexivity|].
    constructor; [|exact Hall]. split; [now rewrite Hid|exact Hpub].
Qed.

Lemma in_firstn {A} (n : nat) (l : list A) (x : A) :
  In x (firstn n l) -> In x l.
Proof.
  intro H. rewrite <- (firstn_skipn n l). apply in_or_app. now left.
Qed.

Lemma Forall2_in_r {A B} (R : A -> B -> Prop) (l : list A) (l' : list B) (y : B) :
  Forall2 R l l' -> In y l' -> exists x, In x l /\ R x y.
Proof.
  induction 1 as [|x y' l l' Hxy _ IH]; intro Hin; [contradiction|].
  destruct Hin as [<-|Hin].
  - exists x. split; [now left|exact Hxy].
  - destruct (IH Hin) as (x' & Hx' & HR). exists x'. split; [now right|exact HR].
Qed.

Lemma listed_photos_origin (a : list resource) (ids : list Z) (p : photo) :
  map asset_id a = map Some ids ->
  In p (listed_photos a) ->
  exists r, In r a /\ asset_id r = Some (p_id p) /\
            p_cloudinary_public_id p = Some (r_public_id r).
Proof.
  intros H Hin. unfold listed_photos in Hin.
  assert (H' : map asset_id (firstn 500 a) = map Some (firstn 500 ids)).
  { rewrite <- !firstn_map. now rewrite H. }
  destruct (photos_of_resources_explicit _ [] _ H') as (ps & Hps & Hall).
  rewrite Hps in Hin. cbn [app] in Hin.
  apply (Permutation_in _ (py_sort_perm by_id ps)) in Hin.
  destruct (Forall2_in_r _ _ _ _ Hall Hin) as (r & Hr & HR).
  exists r. split; [now apply in_firstn in Hr|exact HR].
Qed.

Lemma distinct_ids_filter (f : resource -> bool) (a : list resource) :
  forall ids : list Z,
    map asset_id a = map Some ids -> NoDup ids ->
    exists ids', map asset_id (filter f a) = map Some ids' /\
                 NoDup ids' /\ incl ids' ids.
Proof.
  induction a as [|r a IH]; intros ids H Hnd.
  - exists []. repeat split; [constructor|intros x []].
  - destruct ids as [|i ids]; [discriminate|].
    cbn [map] in H. injection H as Hr Ha.
    inversion Hnd as [|? ? Hni Hnd']; subst.
    destruct (IH ids Ha Hnd') as (ids' & E & N & I).
    cbn [filter]. destruct (f r).
    + exists (i :: ids'). cbn [map]. rewrite Hr, E.
      repeat split.
      * constructor; [|exact N]. intro Hin. apply Hni. now apply I.
      * intros x [<-|Hx]; [now left|right; now apply I].
    + exists ids'. repeat split; [exact E|exact N|].
      intros x Hx. right. now apply I.
Qed.

Lemma distinct_ids_inj (a : list resource) :
  forall ids : list Z,
    map asset_id a = map Some ids -> NoDup ids ->
    forall r r' i, In r a -> In r' a ->
                   asset_id r = Some i -> asset_id r' = Some i -> r = r'.
Proof.
  induction a as [|x a IH]; intros ids H Hnd r r' i Hr Hr' E E'; [contradiction|].
  destruct ids as [|j ids]; [discriminate|].
  cbn [map] in H. injection H as Hx Ha.
  inversion Hnd as [|? ? Hni Hnd']; subst.
  assert (Hin : forall y, In y a -> asset_id y = Some j -> False).
  { intros y Hy Ey. apply Hni.
    apply (in_map asset_id) in Hy. rewrite Ha, Ey in Hy.
    apply in_map_iff in Hy. destruct Hy as (k & Hk & Hkin).
    injection Hk as ->. exact Hkin. }
  destruct Hr as [<-|Hr], Hr' as [<-|Hr'].
  - reflexivity.
  - exfalso. apply (Hin r' Hr'). congruence.
  - exfalso. apply (Hin r Hr). congruence.
  - eapply IH; eassumption.
Qed.

(** Once an asset is destroyed, a store with distinct ids lists no photo
    with the id it carried. *)
Lemma destroy_removes_id (a : list resource) (p : photo) (public_id : string) :
  distinct_ids a ->
  In p (listed_photos a) ->
  p_cloudinary_public_id p = Some public_id ->
  lacks (p_id p)
    (listed_photos
       (filter (fun r => negb (r_public_id r =? public_id)%string) a)).
Proof.
  intros (ids & Hids & Hnd) Hin Hpub.
  destruct (listed_photos_origin a ids p Hids Hin) as (r & Hr & Hrid & Hrpub).
  destruct (distinct_ids_filter
              (fun r => negb (r_public_id r =? public_id)%string) a ids Hids Hnd)
    as (ids' & Hids' & _ & _).
  apply Forall_forall. intros p' Hin' Heq.
  destruct (listed_photos_origin _ ids' p' Hids' Hin') as (r' & Hr' & Hrid' & _).
  apply filter_In in Hr'. destruct Hr' as [Hr' Hne].
  rewrite Heq in Hrid'.
  assert (r = r')
    by (apply (distinct_ids_inj a ids Hids Hnd r r' (p_id p)); assumption).
  subst r'.
  rewrite Hpub in Hrpub. injection Hrpub as ->.
  rewrite String.eqb_refl in Hne. discriminate.
Qed.

(** C9, counterexample.  The store is reachable and the destroy call fails:
    the delete answers success, the next load returns the photo again and a
    second delete answers success again instead of not-found. *)
Lemma delete_survives_failed_remote_deletion :
  let w := remote_world [true; false] in
  let del := delete_photo admin 1 in
  run del w = Success /\
  map p_id (run load_photos_data (exec del w)) = [1] /\
  run del (exec del w) = Success /\
  status_code (run del (exec del w)) <> 404.
Proof.
  cbv zeta. repeat split; try reflexivity. vm_compute. discriminate.
Qed.

(** C9, amended.  With the admin password, a delete answers success exactly
    when the load finds a photo with the id, whatever the destroy call does,
    and not-found otherwise.  On success the cache is rewritten, as far as
    the write goes, with the loaded photos without that id, and the asset is
    removed only when the store is configured, the photo names it and the
    call goes through.  When the cache write succeeded and either the store
    is not configured, or the load was served by a store whose assets carry
    distinct ids and the destroy call went through, the photo is gone: the
    remote listing and the cache hold no photo with the id.  From a world
    in which it is gone, every load after any number of loads returns no
    photo with the id, and a delete answers not-found.  When the load was
    served by the remote listing and the destroy call fails, a later load
    that reaches the store returns the same photos again, the deleted one
    among them, and a delete that reaches the store answers success
    again. *)
Theorem delete_photo_best_effort :
  forall (password : option string) (photo_id : Z) (w : World),
    authorized password = true ->
    let del := delete_photo password photo_id in
    let photos_data := run load_photos_data w in
    let w1 := exec load_photos_data w in
    let w' := exec del w in
    run del w
      = (if existsb (fun p => p_id p =? photo_id) photos_data
         then Success else Failure 404 "Photo not found") /\
    (run del w = Success ->
     photos_file w'
       = written (next_disk w1) (photos_file w1)
           (filter (fun p => negb (p_id p =? photo_id)) photos_data) /\
     exists photo : photo,
       find_photo photo_id photos_data = Some photo /\
       assets w' = after_destroy photo w1) /\
    (run del w = Success ->
     next_disk w1 = WriteOk ->
     cloudinary_configured w = false \/
     (remote_photos w <> [] /\ distinct_ids (assets w) /\ next_net w1 = true) ->
     gone photo_id w') /\
    (forall w0 : World,
        gone photo_id w0 ->
        forall (schedule : list (list bool * list write_outcome))
               (n : list bool) (d : list write_outcome),
          let w2 := with_outcomes n d (loads schedule w0) in
          lacks photo_id (run load_photos_data w2) /\
          run (delete_photo password photo_id) w2
            = Failure 404 "Photo not found") /\
    (run del w = Success ->
     remote_photos w <> [] ->
     next_net w1 = false ->
     forall (n : list bool) (d : list write_outcome),
       let w2 := with_outcomes n d w' in
       next_net w2 = true ->
       run load_photos_data w2 = photos_data /\
       run (delete_photo password photo_id) w2 = Success).
Proof.
  intros password photo_id w Hauth. cbv zeta.
  pose proof (delete_photo_spec password photo_id w Hauth) as D.
  pose proof (find_photo_existsb photo_id (run load_photos_data w)) as F.
  destruct (load_photos_data_spec w) as (Hload & _ & Hconf & Hassets & _).
  cbv zeta in D.
  split; [|split; [|split; [|split]]].
  - destruct (find_photo photo_id (run load_photos_data w)) as [photo|].
    + destruct F as (_ & _ & ->). apply D.
    + destruct F as (-> & _). apply D.
  - intro Hs.
    destruct (find_photo photo_id (run load_photos_data w)) as [photo|].
    + destruct D as (_ & Hf & Ha & _). split; [exact Hf|].
      exists photo. split; [reflexivity|exact Ha].
    + destruct D as [D _]. rewrite D in Hs. discriminate.
  - intros Hs Hdisk Hcase.
    destruct (find_photo photo_id (run load_photos_data w)) as [photo|];
      [|destruct D as [D _]; rewrite D in Hs; discriminate].
    destruct D as (_ & Hf & Ha & Hc).
    destruct F as (Hin & Hid & _).
    split.
    + rewrite Hc, Hconf. intro Hconfigured.
      destruct Hcase as [Hoff|(Hremote & Hdistinct & Hnet)]; [congruence|].
      rewrite Ha. unfold after_destroy. rewrite Hconf, Hconfigured, Hassets.
      rewrite Hload in Hin. unfold cached in Hin.
      destruct (remote_photos_cases w) as [E|E]; [contradiction|].
      rewrite E in Hin, Hremote.
      destruct (listed_photos (assets w)) as [|x l] eqn:L; [contradiction|].
      rewrite <- L in Hin.
      destruct Hdistinct as (ids & Hids & Hnd).
      destruct (listed_photos_origin _ ids photo Hids Hin) as (r & _ & _ & Hpub).
      rewrite Hpub, Hnet. rewrite <- Hid.
      apply destroy_removes_id; [now exists ids|exact Hin|exact Hpub].
    + rewrite Hf, Hdisk. cbn [written read_file]. apply lacks_filter.
  - intros w0 Hgone schedule n d.
    assert (G : gone photo_id (with_outcomes n d (loads schedule w0)))
      by (apply gone_with_outcomes, gone_loads, Hgone).
    split; [now apply gone_load|now apply gone_delete_not_found].
  - intros Hs Hremote Hnet n d Hreach.
    destruct (find_photo photo_id (run load_photos_data w)) as [photo|] eqn:Hfind;
      [|destruct D as [D _]; rewrite D in Hs; discriminate].
    destruct D as (_ & _ & Ha & Hc).
    assert (Hon : cloudinary_configured w = true).
    { unfold remote_photos in Hremote.
      destruct (cloudinary_configured w); [reflexivity|now destruct Hremote]. }
    assert (Hlisted : remote_photos w = listed_photos (assets w))
      by (destruct (remote_photos_cases w) as [E|E]; [contradiction|exact E]).
    assert (Hkept : assets (exec (delete_photo password photo_id) w) = assets w).
    { rewrite Ha. unfold after_destroy. rewrite Hnet, Hassets, Hconf, Hon.
      now destruct (p_cloudinary_public_id photo). }
    set (w2 := with_outcomes n d (exec (delete_photo password photo_id) w)).
    assert (Hremote2 : remote_photos w2 = remote_photos w).
    { unfold remote_photos at 1. fold w2 in Hreach. rewrite Hreach.
      unfold w2. cbn [with_outcomes cloudinary_configured assets].
      now rewrite Hc, Hconf, Hon, Hkept, Hlisted. }
    assert (Hsame : run load_photos_data w2 = run load_photos_data w).
    { destruct (load_photos_data_spec w2) as (Hload2 & _).
      rewrite Hload2, Hload, Hremote2. unfold cached.
      destruct (remote_photos w); [now destruct Hremote|reflexivity]. }
    split; [exact Hsame|].
    pose proof (delete_photo_spec password photo_id w2 Hauth) as D2.
    cbv zeta in D2. rewrite Hsame, Hfind in D2. apply D2.
Qed.

(** A delete on a reachable store: the photo is gone, stays gone through
    later loads, and the second delete answers not-found.  With a destroy
    call that fails, the second delete answers success. *)
Lemma delete_photo_best_effort_witness :
  let w := remote_world [] in
  let del := delete_photo admin 1 in
  run del w = Success /\
  gone 1 (exec del w) /\
  run load_photos_data
    (with_outcomes [true] [WriteOk]
       (loads [([false], []); ([], [WriteFailOpen])] (exec del w))) = [] /\
  run del
    (with_outcomes [] []
       (loads [([false], []); ([], [WriteFailOpen])] (exec del w)))
    = Failure 404 "Photo not found" /\
  run del (with_outcomes [] [] (exec del (remote_world [true; false])))
    = Success.
Proof.
  cbv zeta.
  destruct (delete_photo_best_effort admin 1 (remote_world []) eq_refl)
    as (Hrun & _ & Hgone & Hlater & _).
  assert (G : gone 1 (exec (delete_photo admin 1) (remote_world []))).
  { apply Hgone; [reflexivity|reflexivity|].
    right. split; [vm_compute; discriminate|].
    split; [|reflexivity].
    exists [1]. split; [reflexivity|].
    constructor; [intros []|constructor]. }
  split; [exact Hrun|]. split; [exact G|].
  split; [reflexivity|].
  split;
    [apply (Hlater _ G [([false], []); ([], [WriteFailOpen])] [] [])|].
  destruct (delete_photo_best_effort admin 1 (remote_world [true; false])
              eq_refl) as (_ & _ & _ & _ & Hagain).
  apply (Hagain eq_refl); [vm_compute; discriminate|reflexivity|reflexivity].
Defined.

(** * Further properties of the code *)

(** ** [int(str(n))] *)

Lemma int_digits_string_of_uint (d : Decimal.uint) :
  forall acc : Z,
    int_digits acc true (NilEmpty.string_of_uint d) = Some (uint_val acc d).
Proof.
  induction d; intro acc; cbn [NilEmpty.string_of_uint uint_val];
    [reflexivity|..];
    cbn [int_digits]; apply IHd.
Qed.

Lemma int_digits_string_of_uint_start (d : Decimal.uint) (acc : Z) :
  d <> Decimal.Nil ->
  int_digits acc false (NilEmpty.string_of_uint d) = Some (uint_val acc d).
Proof.
  destruct d; intro H; [now destruct H|..];
    cbn [NilEmpty.string_of_uint uint_val int_digits];
    apply int_digits_string_of_uint.
Qed.

Lemma uint_val_shift (d : Decimal.uint) :
  forall acc : Z,
    uint_val acc d
    = acc * 10 ^ Z.of_N (DecimalPos.Unsigned.usize d)
      + Z.of_N (DecimalPos.Unsigned.of_lu (Decimal.rev d)).
Proof.
  induction d; intro acc;
    cbn [uint_val DecimalPos.Unsigned.usize];
    [cbn; lia|..];
    rewrite IHd; unfold Decimal.rev; cbn [Decimal.revapp];
    rewrite (DecimalPos.Unsigned.of_lu_revapp d (_ Decimal.Nil));
    rewrite N2Z.inj_add, N2Z.inj_mul, N2Z.inj_pow, N2Z.inj_succ;
    rewrite Z.pow_succ_r by apply N2Z.is_nonneg;
    cbn [DecimalPos.Unsigned.of_lu]; unfold Decimal.rev;
    change (Z.of_N 10) with 10; lia.
Qed.

Lemma uint_val_to_uint (p : positive) : uint_val 0 (Pos.to_uint p) = Z.pos p.
Proof.
  rewrite uint_val_shift, <- DecimalPos.Unsigned.of_uint_alt,
    DecimalPos.Unsigned.of_to.
  cbn [Z.of_N]. lia.
Qed.

Lemma decimal_and_space_to_ascii_plain (s : string) :
  Forall (fun c => (N_of_ascii c < 127)%N) (list_ascii_of_string s) ->
  decimal_and_space_to_ascii s = s.
Proof.
  unfold decimal_and_space_to_ascii, code_points.
  induction s as [|c r IH]; intro H; [reflexivity|].
  cbn [list_ascii_of_string] in H. inversion H as [|? ? Hc Hr]; subst.
  cbn [code_points_from].
  assert (L : (N_of_ascii c <? 128)%N = true) by (apply N.ltb_lt; lia).
  rewrite L. cbn [map string_of_list_ascii ascii_of_code_point].
  apply N.ltb_lt in Hc. rewrite Hc, ascii_N_embedding.
  f_equal. apply IH, Hr.
Qed.

Lemma string_of_uint_plain (d : Decimal.uint) :
  Forall (fun c => (N_of_ascii c < 127)%N)
    (list_ascii_of_string (NilEmpty.string_of_uint d)).
Proof.
  induction d; cbn [NilEmpty.string_of_uint list_ascii_of_string];
    constructor; try exact IHd; reflexivity.
Qed.

Lemma py_int_str_uint (d : Decimal.uint) :
  d <> Decimal.Nil ->
  py_int_str (NilEmpty.string_of_uint d) = Some (uint_val 0 d) /\
  py_int_str (String "-" (NilEmpty.string_of_uint d))
  = Some (- uint_val 0 d).
Proof.
  intro N. pose proof (int_digits_string_of_uint_start d 0 N) as E.
  unfold py_int_str. split.
  - rewrite decimal_and_space_to_ascii_plain by apply string_of_uint_plain.
    unfold int_of_ascii.
    destruct d; [now destruct N|..]; exact E.
  - rewrite decimal_and_space_to_ascii_plain
      by (constructor; [reflexivity|apply string_of_uint_plain]).
    unfold int_of_ascii. cbn [skip_spaces].
    change (is_c_space "-") with false. cbv iota.
    change (option_map Z.opp (int_digits 0 false (NilEmpty.string_of_uint d))
            = Some (- uint_val 0 d)).
    now rewrite E.
Qed.

(** Reading back the text of a number gives the number: ids and collection
    ids survive the trip through an asset's context. *)
Lemma py_int_str_py_str_int (z : Z) : py_int_str (py_str_int z) = Some z.
Proof.
  unfold py_str_int. destruct z as [|p|p]; cbn [Z.to_int NilZero.string_of_int].
  - reflexivity.
  - pose proof (DecimalPos.Unsigned.to_uint_nonnil p) as N.
    destruct (py_int_str_uint _ N) as [E _]. rewrite uint_val_to_uint in E.
    unfold NilZero.string_of_uint.
    destruct (Pos.to_uint p); [now destruct N|..]; exact E.
  - pose proof (DecimalPos.Unsigned.to_uint_nonnil p) as N.
    destruct (py_int_str_uint _ N) as [_ E]. rewrite uint_val_to_uint in E.
    unfold NilZero.string_of_uint.
    destruct (Pos.to_uint p); [now destruct N|..]; exact E.
Qed.

Lemma py_str_int_inj (a b : Z) : py_str_int a = py_str_int b -> a = b.
Proof.
  intro H. pose proof (py_int_str_py_str_int a) as E.
  rewrite H, py_int_str_py_str_int in E. congruence.
Qed.

Lemma py_str_int_nonempty (z : Z) : py_str_int z <> "".
Proof.
  intro H. pose proof (py_int_str_py_str_int z) as E.
  rewrite H in E. discriminate.
Qed.

(** What [int()] reads: digits of other scripts and spaces outside ASCII
    count, the separators U+001C to U+001F do not. *)
Lemma py_int_str_samples :
  py_int_str " 42 " = Some 42 /\
  py_int_str "-1_000" = Some (-1000) /\
  py_int_str "１２" = Some 12 /\
  py_int_str "٣" = Some 3 /\
  py_int_str "　7" = Some 7 /\
  py_int_str (String (ascii_of_N 28) "3") = None /\
  py_int_str "1__0" = None /\
  py_int_str "+ 3" = None /\
  py_int_str "²" = None /\
  py_int_str "" = None.
Proof. repeat split. Qed.

(** ** From the context back to the photo *)

Lemma context_collection_id_context_of (i : Z) (fn t d : string) (v : value)
  (date : string) :
  context_collection_id (context_of i fn t d v date) = listed_collection_id v.
Proof.
  unfold context_collection_id, context_of, listed_collection_id.
  cbn [ctx_get String.eqb Ascii.eqb Bool.eqb get_default].
  destruct v as [|n|s]; cbn [truthy py_str py_int].
  - reflexivity.
  - destruct (n =? 0); cbn [negb]; [reflexivity|].
    destruct (py_str_int n =? "")%string eqn:E.
    + apply String.eqb_eq in E. now destruct (py_str_int_nonempty n).
    + cbn [negb]. now rewrite py_int_str_py_str_int.
  - destruct (s =? "")%string eqn:E; cbn [negb]; [reflexivity|].
    rewrite E. reflexivity.
Qed.

Lemma photo_of_resource_context_of (acc : list photo)
  (public_id url : string) (created : option string)
  (i : Z) (fn t d : string) (v : value) (date : string) :
  photo_of_resource acc
    (mkResource public_id url created (Some (context_of i fn t d v date)))
  = Some (mkPhoto i fn t d (listed_collection_id v) url (Some public_id) url
            date "cloudinary").
Proof.
  unfold photo_of_resource. cbn [r_context r_secure_url r_public_id r_created_at].
  rewrite context_collection_id_context_of.
  unfold context_of.
  cbn [ctx_get String.eqb Ascii.eqb Bool.eqb get_default].
  now rewrite py_int_str_py_str_int.
Qed.

(** X1. What a later listing makes of the asset stored by a successful
    upload is the record the upload answered, except that the upload date
    is the first reading of the clock (the one written to the context) and
    that the collection id 0 comes back as [None]. *)
Theorem uploaded_photo_is_listed_back :
  forall (lower : string -> string) (q : upload_request) (w : World) (p : photo),
    run (upload_photo lower q) w = SuccessPhoto p ->
    exists a : resource,
      In a (assets (exec (upload_photo lower q) w)) /\
      Some (r_public_id a) = p_cloudinary_public_id p /\
      forall photos_data : list photo,
        photo_of_resource photos_data a
        = Some (mkPhoto (p_id p) (p_filename p) (p_title p) (p_description p)
                  (listed_collection_id (p_collection_id p))
                  (p_cloudinary_url p) (p_cloudinary_public_id p)
                  (p_image_url p) (u_now_context q) (p_storage_type p)).
Proof.
  intros lower q w p H.
  destruct (upload_success_inv lower q w p H)
    as (w1 & filename & cid & _ & _ & _ & Hrest).
  cbv zeta in Hrest. destruct Hrest as (_ & _ & Hp & _ & _ & Ha).
  eexists. split; [rewrite Ha; left; reflexivity|].
  subst p. split; [reflexivity|].
  intro photos_data. apply photo_of_resource_context_of.
Qed.

Lemma uploaded_photo_is_listed_back_witness :
  exists a : resource,
    In a (assets (exec (upload_photo ascii_lower untitled_upload)
                    (remote_world []))) /\
    photo_of_resource [] a
    = Some (mkPhoto 2 "holiday" "Untitled" "" VNone
              "https://res.example/new.jpg"
              (Some "georges_photo_gallery/photo_2_0123abcd.jpg")
              "https://res.example/new.jpg" "2024-02-01T08:00:00"
              "cloudinary").
Proof.
  destruct (uploaded_photo_is_listed_back ascii_lower untitled_upload
              (remote_world [])
              (mkPhoto 2 "holiday" "Untitled" "" VNone
                 "https://res.example/new.jpg"
                 (Some "georges_photo_gallery/photo_2_0123abcd.jpg")
                 "https://res.example/new.jpg" "2024-02-01T08:00:01"
                 "cloudinary") eq_refl) as (a & Hin & _ & Hconv).
  exists a. split; [exact Hin|exact (Hconv [])].
Defined.

(** ** The remote listing *)

Lemma context_collection_id_shape (ctx : context) :
  context_collection_id ctx = VNone \/
  exists n, context_collection_id ctx = VInt n.
Proof.
  unfold context_collection_id.
  destruct (negb _); [|now left].
  destruct (py_int_str _) as [n|]; [right; now exists n|now left].
Qed.

Lemma photo_of_resource_shape (acc : list photo) (r : resource) (p : photo) :
  photo_of_resource acc r = Some p -> remote_shaped p.
Proof.
  unfold photo_of_resource, remote_shaped.
  destruct (match ctx_get "id" _ with Some s => py_int_str s | None => _ end);
    [|discriminate].
  intro H. injection H as <-. cbn.
  repeat split; [discriminate|apply context_collection_id_shape].
Qed.

Lemma photos_of_resources_shape (rs : list resource) :
  forall acc l : list photo,
    photos_of_resources acc rs = Some l ->
    exists ps, l = (acc ++ ps)%list /\
               List.length ps = List.length rs /\
               Forall remote_shaped ps.
Proof.
  induction rs as [|r rs IH]; intros acc l H; cbn [photos_of_resources] in H.
  - injection H as <-. exists []. rewrite app_nil_r. repeat split. constructor.
  - destruct (photo_of_resource acc r) as [p|] eqn:E; [|discriminate].
    destruct (IH _ _ H) as (ps & -> & Hlen & Hall).
    exists (p :: ps). rewrite <- app_assoc. cbn [app List.length].
    repeat split; [now rewrite Hlen|].
    constructor; [now apply (photo_of_resource_shape acc r)|exact Hall].
Qed.

Lemma StronglySorted_impl {A} (R R' : A -> A -> Prop) (l : list A) :
  (forall a b, R a b -> R' a b) -> StronglySorted R l -> StronglySorted R' l.
Proof.
  intros H S. induction S as [|a l _ IH Ha]; constructor; [exact IH|].
  eapply Forall_impl; [|exact Ha]. intros b. apply H.
Qed.

Lemma by_id_asym (a b : photo) : by_id a b = true -> by_id b a = false.
Proof. unfold by_id. rewrite Z.ltb_lt, Z.ltb_ge. lia. Qed.

Lemma by_id_trans (a b c : photo) :
  by_id b a = false -> by_id c b = false -> by_id c a = false.
Proof. unfold by_id. rewrite !Z.ltb_ge. lia. Qed.

(** X2. Whatever the remote store holds, [load_photos_from_cloudinary]
    returns at most 500 photos, in non-decreasing order of id, each marked
    as stored remotely, naming its asset, and with a [collection_id] that
    is [None] or an integer. *)
Theorem remote_listing_sorted_and_bounded :
  forall w : World,
    let l := run load_photos_from_cloudinary w in
    StronglySorted (fun a b => p_id a <= p_id b) l /\
    (List.length l <= 500)%nat /\
    Forall remote_shaped l.
Proof.
  intro w. cbv zeta. rewrite load_photos_from_cloudinary_result.
  unfold remote_photos.
  destruct (cloudinary_configured w && next_net w)%bool;
    [|repeat split; [constructor|simpl; lia|constructor]].
  unfold listed_photos.
  destruct (photos_of_resources [] (firstn 500 (assets w))) as [l|] eqn:E;
    [|repeat split; [constructor|simpl; lia|constructor]].
  destruct (photos_of_resources_shape _ _ _ E) as (ps & -> & Hlen & Hall).
  cbn [app]. pose proof (py_sort_perm by_id ps) as P.
  split; [|split].
  - eapply StronglySorted_impl;
      [|apply (py_sort_sorted by_id by_id_asym by_id_trans)].
    intros a b Hb. unfold by_id in Hb. now apply Z.ltb_ge in Hb.
  - rewrite (Permutation_length P), Hlen. apply firstn_le_length.
  - eapply Permutation_Forall; [symmetry; exact P|exact Hall].
Qed.








(** ** Cache and store round trips *)

Lemma remote_photos_unreachable (w : World) :
  (cloudinary_configured w && next_net w)%bool = false -> remote_photos w = [].
Proof. unfold remote_photos. now intros ->. Qed.

Lemma remote_collections_unreachable (w : World) :
  (cloudinary_configured w && next_net w)%bool = false ->
  remote_collections w = [].
Proof.
  unfold remote_collections. intros ->. now destruct (collections_metadata w).
Qed.

(** X5. A load followed by a load that cannot reach the store returns the
    same sequence again, provided the first load was served by the cache or
    its cache write succeeded.  This holds for photos and for collections. *)
Theorem unreachable_load_repeats_last_load :
  forall (w : World) (n : list bool) (d : list write_outcome),
    (cloudinary_configured w
     && match n with [] => true | b :: _ => b end)%bool = false ->
    (run load_photos_from_cloudinary w = [] \/ next_disk w = WriteOk ->
     run load_photos_data (with_outcomes n d (exec load_photos_data w))
     = run load_photos_data w) /\
    (run load_collections_from_cloudinary w = [] \/ next_disk w = WriteOk ->
     run load_collections_data
       (with_outcomes n d (exec load_collections_data w))
     = run load_collections_data w).
Proof.
  intros w n d Hdown. split; intro Hok.
  - destruct (load_photos_data_spec w) as (Hr & Hf & Hc & _).
    destruct (load_photos_data_spec
                (with_outcomes n d (exec load_photos_data w))) as (Hr' & _).
    rewrite Hr', Hr. rewrite remote_photos_unreachable
      by (cbn [with_outcomes cloudinary_configured next_net net];
          now rewrite Hc).
    cbn [cached with_outcomes photos_file]. rewrite Hf.
    rewrite load_photos_from_cloudinary_result in Hok.
    unfold refreshed, cached.
    destruct (remote_photos w) as [|x l]; [reflexivity|].
    destruct Hok as [Hok|Hok]; [discriminate|]. now rewrite Hok.
  - destruct (load_collections_data_spec w) as (Hr & Hf & Hc & _).
    destruct (load_collections_data_spec
                (with_outcomes n d (exec load_collections_data w)))
      as (Hr' & _).
    rewrite Hr', Hr. rewrite remote_collections_unreachable
      by (cbn [with_outcomes cloudinary_configured next_net net];
          now rewrite Hc).
    cbn [cached with_outcomes collections_file]. rewrite Hf.
    rewrite load_collections_from_cloudinary_result in Hok.
    unfold refreshed, cached.
    destruct (remote_collections w) as [|x l]; [reflexivity|].
    destruct Hok as [Hok|Hok]; [discriminate|]. now rewrite Hok.
Qed.

Lemma unreachable_load_repeats_last_load_witness :
  map p_id
    (run load_photos_data
       (with_outcomes [false] [] (exec load_photos_data (remote_world []))))
  = [1].
Proof.
  destruct (unreachable_load_repeats_last_load (remote_world []) [false] []
              eq_refl) as [H _].
  rewrite H; [reflexivity|]. right. reflexivity.
Defined.

(** A load returns the remote document when it reaches it and the document
    is not empty, and the cache content when the store gives nothing. *)
Lemma load_collections_known (w : World) (data : list collection) :
  (cloudinary_configured w = true /\ collections_metadata w = Some data /\
   data <> [] /\ next_net w = true /\ second_net w = true) \/
  (run load_collections_from_cloudinary w = [] /\
   collections_file w = Content data) ->
  run load_collections_data w = data.
Proof.
  destruct (load_collections_data_spec w) as (Hr & _). rewrite Hr.
  intros [(Hc & Hm & Hd & N1 & N2)|(Hnone & Hf)].
  - unfold remote_collections. rewrite Hm, Hc, N1, N2. cbn [andb cached].
    destruct data; [now destruct Hd|reflexivity].
  - rewrite load_collections_from_cloudinary_result in Hnone.
    rewrite Hnone. cbn [cached]. now rewrite Hf.
Qed.

(** After a save that reported success, a load that reaches the store when
    it is configured returns the saved list, if that list is not empty. *)
Lemma load_after_successful_save (data : list collection) (w : World)
  (n : list bool) (d : list write_outcome) :
  run (save_collections_data data) w = true ->
  data <> [] ->
  let w' := with_outcomes n d (exec (save_collections_data data) w) in
  (cloudinary_configured w = true ->
   next_net w' = true /\ second_net w' = true) ->
  run load_collections_data w' = data.
Proof.
  intros Hsave Hdata w' Hreach.
  destruct (save_collections_data_spec data w) as (Hr & Hf & Hm & _ & Hc & _).
  rewrite Hsave in Hr. apply load_collections_known.
  destruct (cloudinary_configured w) eqn:C.
  - left. destruct (Hreach eq_refl) as [N1 N2].
    unfold w'. cbn [with_outcomes cloudinary_configured collections_metadata].
    rewrite Hc, Hm, <- Hr. repeat split; assumption.
  - right. split.
    + rewrite load_collections_from_cloudinary_result.
      apply remote_collections_unreachable.
      unfold w'. cbn [with_outcomes cloudinary_configured]. now rewrite Hc.
    + unfold w'. cbn [with_outcomes collections_file]. rewrite Hf.
      destruct (next_disk w); try discriminate. reflexivity.
Qed.

(** X6. Saved collections are loaded back: by a load that reaches the store
    when the remote save went through and the list is not empty, and by a
    load that gets nothing from the store when the local write succeeded. *)
Theorem saved_collections_are_loaded_back :
  forall (data : list collection) (w : World) (n : list bool)
         (d : list write_outcome),
    let w' := with_outcomes n d (exec (save_collections_data data) w) in
    (cloudinary_configured w = true -> next_net w = true -> data <> [] ->
     next_net w' = true -> second_net w' = true ->
     run load_collections_data w' = data) /\
    (next_disk w = WriteOk ->
     run load_collections_from_cloudinary w' = [] ->
     run load_collections_data w' = data).
Proof.
  intros data w n d. cbv zeta.
  destruct (save_collections_data_spec data w) as (_ & Hf & Hm & _ & Hc & _).
  split.
  - intros Hconf Hnet Hdata Hn1 Hn2. apply load_collections_known. left.
    cbn [with_outcomes cloudinary_configured collections_metadata].
    rewrite Hc, Hm, Hconf, Hnet. repeat split; assumption.
  - intros Hdisk Hnone. apply load_collections_known. right.
    split; [exact Hnone|].
    cbn [with_outcomes collections_file]. now rewrite Hf, Hdisk.
Qed.

Lemma saved_collections_are_loaded_back_witness :
  run load_collections_data
    (with_outcomes [] []
       (exec (save_collections_data [mkCollection 4 "Family" ""])
          (remote_world [])))
  = [mkCollection 4 "Family" ""] /\
  run load_collections_data
    (with_outcomes [false] []
       (exec (save_collections_data []) weddings_world))
  = [].
Proof.
  split.
  - destruct (saved_collections_are_loaded_back [mkCollection 4 "Family" ""]
                (remote_world []) [] []) as [H _].
    apply H; try reflexivity. discriminate.
  - destruct (saved_collections_are_loaded_back [] weddings_world [false] [])
      as [_ H].
    apply H; reflexivity.
Defined.

(** ** Creating and renaming collections *)

Lemma get_next_collection_id_pair (w : World) :
  get_next_collection_id w
  = (run get_next_collection_id w, exec load_collections_data w).
Proof.
  rewrite <- get_next_collection_id_exec. apply run_exec_pair.
Qed.

(** The path of [create_collection] past the checks. *)
Lemma create_collection_spec (lower strip : string -> string)
  (password name_field : option string) (now : string) (w : World) :
  authorized password = true ->
  let name := strip (get_default name_field "") in
  let loaded := run load_collections_data w in
  let w1 := exec load_collections_data w in
  let w2 := exec load_collections_data w1 in
  let c := mkCollection (run get_next_collection_id w1) name now in
  name <> "" ->
  existsb (same_name lower name) loaded = false ->
  create_collection lower strip password name_field now w
  = ((if run (save_collections_data (loaded ++ [c])) w2
      then SuccessCollection c
      else Failure 500 "Failed to save collection"),
     exec (save_collections_data (loaded ++ [c])) w2).
Proof.
  intros Hauth name loaded w1 w2 c Hname Hnew.
  unfold create_collection. rewrite Hauth. cbn [negb].
  apply String.eqb_neq in Hname. fold name. rewrite Hname.
  unfold bind at 1. rewrite (run_exec_pair load_collections_data w).
  fold loaded w1. rewrite Hnew.
  unfold bind at 1. rewrite get_next_collection_id_pair. fold w2.
  unfold bind at 1.
  rewrite (run_exec_pair (save_collections_data _) w2). fold c.
  destruct (run (save_collections_data (loaded ++ [c])) w2); reflexivity.
Qed.

Lemma next_collection_id_is_fresh (w : World) (c : collection) :
  In c (run load_collections_data w) -> c_id c < run get_next_collection_id w.
Proof.
  intro Hin.
  pose proof (py_max_next_id (map c_id (run load_collections_data w))) as N.
  rewrite <- get_next_collection_id_result in N.
  apply (in_map c_id) in Hin.
  destruct (map c_id (run load_collections_data w)) as [|x l]; [contradiction|].
  destruct N as [_ N]. rewrite Forall_forall in N.
  specialize (N _ Hin). simpl in N. lia.
Qed.

Lemma create_success_inv (lower strip : string -> string)
  (password name_field : option string) (now : string) (w : World)
  (c : collection) :
  authorized password = true ->
  run (create_collection lower strip password name_field now) w
    = SuccessCollection c ->
  let name := strip (get_default name_field "") in
  let loaded := run load_collections_data w in
  let w1 := exec load_collections_data w in
  let w2 := exec load_collections_data w1 in
  name <> "" /\
  existsb (same_name lower name) loaded = false /\
  c = mkCollection (run get_next_collection_id w1) name now /\
  run (save_collections_data (loaded ++ [c])) w2 = true /\
  exec (create_collection lower strip password name_field now) w
    = exec (save_collections_data (loaded ++ [c])) w2.
Proof.
  intros Hauth H name loaded w1 w2.
  assert (Hname : name <> "").
  { intro E. unfold create_collection in H. rewrite Hauth in H.
    fold name in H. rewrite E in H. discriminate. }
  assert (Hnew : existsb (same_name lower name) loaded = false).
  { destruct (existsb (same_name lower name) loaded) eqn:X; [|reflexivity].
    unfold create_collection in H. rewrite Hauth in H. cbn [negb] in H.
    fold name in H. apply String.eqb_neq in Hname. rewrite Hname in H.
    unfold run, bind at 1 in H.
    rewrite (run_exec_pair load_collections_data w) in H.
    fold loaded in H. rewrite X in H. discriminate. }
  pose proof (create_collection_spec lower strip password name_field now w
                Hauth Hname Hnew) as S.
  cbv zeta in S. fold name loaded w1 w2 in S.
  assert (Hexec :
             exec (create_collection lower strip password name_field now) w
             = exec (save_collections_data
                       (loaded ++ [mkCollection (run get_next_collection_id w1)
                                     name now])) w2)
    by (unfold exec at 1; now rewrite S).
  unfold run at 1 in H. rewrite S in H. cbn [fst] in H.
  destruct (run (save_collections_data _) w2) eqn:Hs; [|discriminate].
  injection H as <-. repeat split; assumption.
Qed.

(** X7. After a create that answered success, a load (one that reaches the
    store, when the store is configured) returns the collections the create
    had loaded followed by the new one.  The new collection has the
    stripped name, a name no loaded collection has in any letter case, and
    an id greater than every id the allocator's load returned. *)
Theorem created_collection_is_listed :
  forall (lower strip : string -> string) (password name_field : option string)
         (now : string) (w : World) (c : collection) (n : list bool)
         (d : list write_outcome),
    authorized password = true ->
    run (create_collection lower strip password name_field now) w
      = SuccessCollection c ->
    let w' :=
      with_outcomes n d
        (exec (create_collection lower strip password name_field now) w) in
    (cloudinary_configured w = true ->
     next_net w' = true /\ second_net w' = true) ->
    c_name c = strip (get_default name_field "") /\
    c_name c <> "" /\
    Forall (fun c' => lower (c_name c') <> lower (c_name c))
      (run load_collections_data w) /\
    Forall (fun c' => c_id c' < c_id c)
      (run load_collections_data (exec load_collections_data w)) /\
    run load_collections_data w' = (run load_collections_data w ++ [c])%list.
Proof.
  intros lower strip password name_field now w c n d Hauth H w' Hreach.
  destruct (create_success_inv lower strip password name_field now w c Hauth H)
    as (Hname & Hnew & Hc & Hsave & Hexec).
  set (loaded := run load_collections_data w) in *.
  set (w1 := exec load_collections_data w) in *.
  set (w2 := exec load_collections_data w1) in *.
  assert (Hcn : c_name c = strip (get_default name_field ""))
    by (rewrite Hc; reflexivity).
  split; [exact Hcn|]. split; [now rewrite Hcn|].
  split.
  { apply Forall_forall. intros c' Hin E.
    assert (X : existsb (same_name lower (strip (get_default name_field "")))
                  loaded = true).
    { apply existsb_exists. exists c'. split; [exact Hin|].
      unfold same_name. rewrite <- Hcn. now apply String.eqb_eq. }
    congruence. }
  split.
  { apply Forall_forall. intros c' Hin. rewrite Hc. cbn [c_id].
    now apply next_collection_id_is_fresh. }
  assert (Hconf : cloudinary_configured w2 = cloudinary_configured w).
  { unfold w2, w1.
    destruct (load_collections_data_spec w) as (_ & _ & C1 & _).
    destruct (load_collections_data_spec (exec load_collections_data w))
      as (_ & _ & C2 & _). congruence. }
  unfold w'. rewrite Hexec.
  apply load_after_successful_save; [exact Hsave|now destruct loaded|].
  rewrite Hconf. intro C. unfold w' in Hreach. rewrite Hexec in Hreach.
  now apply Hreach.
Qed.

Lemma created_collection_is_listed_witness :
  run load_collections_data
    (with_outcomes [] []
       (exec (create_collection ascii_lower ascii_strip admin (Some " Family ")
                "2024-03-01T12:00:00") weddings_world))
  = [mkCollection 1 "Weddings" "2024-01-01T10:00:00";
     mkCollection 2 "Travel" "2024-01-02T10:00:00";
     mkCollection 3 "Family" "2024-03-01T12:00:00"].
Proof.
  destruct (created_collection_is_listed ascii_lower ascii_strip admin
              (Some " Family ") "2024-03-01T12:00:00" weddings_world
              (mkCollection 3 "Family" "2024-03-01T12:00:00") [] []
              eq_refl eq_refl) as (_ & _ & _ & _ & H).
  - discriminate.
  - exact H.
Defined.

(** X8. A create can answer 500 and still leave the collection behind: when
    the store is configured and the remote save fails, the answer is
    "Failed to save collection", the remote document is the one from
    before, yet the local cache holds the new collection if the file write
    went through, and a later load that cannot reach the store returns
    it. *)
Theorem failed_create_reaches_the_cache :
  forall (lower strip : string -> string) (password name_field : option string)
         (now : string) (w : World) (n : list bool) (d : list write_outcome),
    authorized password = true ->
    let name := strip (get_default name_field "") in
    let create := create_collection lower strip password name_field now in
    let loaded := run load_collections_data w in
    let w1 := exec load_collections_data w in
    let w2 := exec load_collections_data w1 in
    let c := mkCollection (run get_next_collection_id w1) name now in
    name <> "" ->
    existsb (same_name lower name) loaded = false ->
    cloudinary_configured w = true ->
    next_net w2 = false ->
    run create w = Failure 500 "Failed to save collection" /\
    collections_metadata (exec create w) = collections_metadata w /\
    collections_file (exec create w)
      = written (next_disk w2) (collections_file w2) (loaded ++ [c])%list /\
    (next_disk w2 = WriteOk ->
     match n with [] => true | b :: _ => b end = false ->
     run load_collections_data (with_outcomes n d (exec create w))
     = (loaded ++ [c])%list).
Proof.
  intros lower strip password name_field now w n d Hauth
         name create loaded w1 w2 c Hname Hnew Hconf Hnet.
  pose proof (create_collection_spec lower strip password name_field now w
                Hauth Hname Hnew) as S.
  cbv zeta in S. fold name loaded w1 w2 c in S.
  assert (Hc2 : cloudinary_configured w2 = true /\
                collections_metadata w2 = collections_metadata w).
  { unfold w2, w1.
    destruct (load_collections_data_spec w) as (_ & _ & C1 & _ & M1 & _).
    destruct (load_collections_data_spec (exec load_collections_data w))
      as (_ & _ & C2 & _ & M2 & _). split; congruence. }
  destruct Hc2 as [Hc2 Hm2].
  destruct (save_collections_data_spec (loaded ++ [c])%list w2)
    as (Hr & Hf & Hm & _ & Hc' & _).
  rewrite Hc2, Hnet in Hr, Hm. cbn [andb] in Hm.
  assert (Hrun : run create w = Failure 500 "Failed to save collection")
    by (unfold create, run; rewrite S; cbn [fst]; now rewrite Hr).
  assert (Hexec : exec create w
                  = exec (save_collections_data (loaded ++ [c])%list) w2)
    by (unfold create, exec at 1; now rewrite S).
  split; [exact Hrun|]. rewrite Hexec.
  split; [congruence|]. split; [exact Hf|].
  intros Hdisk Hdown.
  destruct (load_collections_data_spec
              (with_outcomes n d
                 (exec (save_collections_data (loaded ++ [c])%list) w2)))
    as (Hl & _).
  rewrite Hl, remote_collections_unreachable.
  - cbn [cached with_outcomes collections_file]. now rewrite Hf, Hdisk.
  - unfold next_net. cbn [with_outcomes cloudinary_configured net].
    rewrite Hdown. apply andb_false_r.
Qed.

Lemma failed_create_reaches_the_cache_witness :
  let w := remote_world [true; true; true; true; false] in
  let create :=
    create_collection ascii_lower ascii_strip admin (Some "Family")
      "2024-03-01T12:00:00" in
  run create w = Failure 500 "Failed to save collection" /\
  map c_name
    (run load_collections_data (with_outcomes [false] [] (exec create w)))
  = ["Weddings"; "Family"].
Proof.
  cbv zeta.
  destruct (failed_create_reaches_the_cache ascii_lower ascii_strip admin
              (Some "Family") "2024-03-01T12:00:00"
              (remote_world [true; true; true; true; false]) [false] []
              eq_refl) as (Hrun & _ & _ & Hload);
    try reflexivity; try discriminate.
  split; [exact Hrun|].
  rewrite Hload; reflexivity.
Defined.

(** The path of [update_collection] past the checks. *)
Lemma update_collection_spec (lower strip : string -> string)
  (password : option string) (collection_id : Z) (name_field : option string)
  (w : World) (c0 : collection) :
  authorized password = true ->
  let name := strip (get_default name_field "") in
  let loaded := run load_collections_data w in
  let w1 := exec load_collections_data w in
  name <> "" ->
  find_collection_by_id collection_id loaded = Some c0 ->
  existsb (fun c' => same_name lower name c'
                     && negb (c_id c' =? collection_id))%bool loaded = false ->
  update_collection lower strip password collection_id name_field w
  = ((if run (save_collections_data (assign_name collection_id name loaded)) w1
      then SuccessCollection (renamed name c0)
      else Failure 500 "Failed to save collection"),
     exec (save_collections_data (assign_name collection_id name loaded)) w1).
Proof.
  intros Hauth name loaded w1 Hname Hfind Hnew.
  unfold update_collection. rewrite Hauth. cbn [negb].
  apply String.eqb_neq in Hname. fold name. rewrite Hname.
  unfold bind at 1. rewrite (run_exec_pair load_collections_data w).
  fold loaded w1. rewrite Hfind, Hnew.
  unfold bind at 1.
  rewrite (run_exec_pair (save_collections_data _) w1).
  destruct (run (save_collections_data _) w1); reflexivity.
Qed.

Lemma update_success_inv (lower strip : string -> string)
  (password : option string) (collection_id : Z) (name_field : option string)
  (w : World) (c : collection) :
  authorized password = true ->
  run (update_collection lower strip password collection_id name_field) w
    = SuccessCollection c ->
  let name := strip (get_default name_field "") in
  let loaded := run load_collections_data w in
  let w1 := exec load_collections_data w in
  name <> "" /\
  (exists c0, find_collection_by_id collection_id loaded = Some c0 /\
              c = renamed name c0) /\
  existsb (fun c' => same_name lower name c'
                     && negb (c_id c' =? collection_id))%bool loaded = false /\
  run (save_collections_data (assign_name collection_id name loaded)) w1
    = true /\
  exec (update_collection lower strip password collection_id name_field) w
    = exec (save_collections_data (assign_name collection_id name loaded)) w1.
Proof.
  intros Hauth H name loaded w1.
  assert (Hname : name <> "").
  { intro E. unfold update_collection in H. rewrite Hauth in H.
    fold name in H. rewrite E in H. discriminate. }
  pose proof H as H0.
  unfold update_collection in H0. rewrite Hauth in H0. cbn [negb] in H0.
  fold name in H0. rewrite (proj2 (String.eqb_neq _ _) Hname) in H0.
  unfold run, bind at 1 in H0.
  rewrite (run_exec_pair load_collections_data w) in H0.
  fold loaded w1 in H0.
  destruct (find_collection_by_id collection_id loaded) as [c0|] eqn:F;
    [|discriminate].
  destruct (existsb (fun c' => same_name lower name c'
                     && negb (c_id c' =? collection_id))%bool loaded) eqn:X;
    [discriminate|].
  clear H0.
  pose proof (update_collection_spec lower strip password collection_id
                name_field w c0 Hauth Hname F X) as S.
  cbv zeta in S. fold name loaded w1 in S.
  assert (Hexec :
    exec (update_collection lower strip password collection_id name_field) w
    = exec (save_collections_data (assign_name collection_id name loaded)) w1)
    by (unfold exec at 1; now rewrite S).
  unfold run at 1 in H. rewrite S in H. cbn [fst] in H.
  destruct (run (save_collections_data _) w1) eqn:Hs; [|discriminate].
  injection H as <-.
  split; [exact Hname|]. split; [now exists c0|].
  repeat split; assumption.
Qed.

Lemma assign_name_ids (collection_id : Z) (name : string) (l : list collection) :
  map c_id (assign_name collection_id name l) = map c_id l /\
  map c_created_date (assign_name collection_id name l)
  = map c_created_date l.
Proof.
  induction l as [|c l [IH1 IH2]]; [split; reflexivity|].
  cbn [assign_name]. destruct (c_id c =? collection_id); cbn [map].
  - split; reflexivity.
  - now rewrite IH1, IH2.
Qed.

Lemma rename_others_id (collection_id : Z) (name : string)
  (l : list collection) :
  ~ In collection_id (map c_id l) ->
  map (fun c => if c_id c =? collection_id then renamed name c else c) l = l.
Proof.
  induction l as [|x l IH]; intro H; [reflexivity|]. cbn [map] in *.
  destruct (c_id x =? collection_id) eqn:X.
  - apply Z.eqb_eq in X. exfalso. apply H. now left.
  - f_equal. apply IH. intro Hin. apply H. now right.
Qed.

Lemma assign_name_unique (collection_id : Z) (name : string)
  (l : list collection) :
  unique_ids l ->
  assign_name collection_id name l
  = map (fun c => if c_id c =? collection_id then renamed name c else c) l.
Proof.
  unfold unique_ids. induction l as [|c l IH]; intro Hnd; [reflexivity|].
  cbn [assign_name map] in *. inversion Hnd as [|? ? Hni Hnd']; subst.
  destruct (c_id c =? collection_id) eqn:E.
  - apply Z.eqb_eq in E. rewrite rename_others_id by congruence. reflexivity.
  - f_equal. now apply IH.
Qed.

Lemma assign_name_in (collection_id : Z) (name : string)
  (l : list collection) (y : collection) :
  In y (assign_name collection_id name l) ->
  In y l \/ (c_name y = name /\ c_id y = collection_id).
Proof.
  induction l as [|c l IH]; [intros []|].
  cbn [assign_name]. destruct (c_id c =? collection_id) eqn:E.
  - intros [<-|Hin]; [|left; now right].
    right. split; [reflexivity|now apply Z.eqb_eq].
  - intros [<-|Hin]; [left; now left|].
    destruct (IH Hin) as [H|H]; [left; now right|now right].
Qed.

Lemma assign_name_nonempty (collection_id : Z) (name : string)
  (l : list collection) :
  l <> [] -> assign_name collection_id name l <> [].
Proof.
  destruct l as [|c l]; [congruence|]. intros _.
  cbn [assign_name]. destruct (c_id c =? collection_id); discriminate.
Qed.

(** X9. After a rename that answered success, a load (one that reaches the
    store, when the store is configured) returns the collections the rename
    had loaded, in the same order with the same ids and creation dates,
    the first collection with the requested id carrying the new name; when
    the loaded ids are distinct, that is the only name that changed. *)
Theorem renamed_collection_is_listed :
  forall (lower strip : string -> string) (password : option string)
         (collection_id : Z) (name_field : option string) (w : World)
         (c : collection) (n : list bool) (d : list write_outcome),
    authorized password = true ->
    run (update_collection lower strip password collection_id name_field) w
      = SuccessCollection c ->
    let w' :=
      with_outcomes n d
        (exec (update_collection lower strip password collection_id
                 name_field) w) in
    let name := strip (get_default name_field "") in
    let loaded := run load_collections_data w in
    (cloudinary_configured w = true ->
     next_net w' = true /\ second_net w' = true) ->
    c_id c = collection_id /\
    c_name c = name /\
    run load_collections_data w' = assign_name collection_id name loaded /\
    find_collection_by_id collection_id (run load_collections_data w') = Some c /\
    map c_id (run load_collections_data w') = map c_id loaded /\
    map c_created_date (run load_collections_data w')
      = map c_created_date loaded /\
    (unique_ids loaded ->
     run load_collections_data w'
     = map (fun c0 => if c_id c0 =? collection_id then renamed name c0 else c0)
         loaded).
Proof.
  intros lower strip password collection_id name_field w c n d Hauth H
         w' name loaded Hreach.
  destruct (update_success_inv lower strip password collection_id name_field
              w c Hauth H) as (Hname & (c0 & Hfind & Hc) & _ & Hsave & Hexec).
  fold name loaded in Hfind, Hc, Hsave, Hexec.
  pose proof (find_collection_by_id_existsb collection_id loaded) as F.
  rewrite Hfind in F. destruct F as (Hin & Hid & _).
  assert (Hload : run load_collections_data w'
                  = assign_name collection_id name loaded).
  { unfold w'. rewrite Hexec.
    apply load_after_successful_save; [exact Hsave| |].
    - apply assign_name_nonempty. intro E. rewrite E in Hin. contradiction.
    - destruct (load_collections_data_spec w) as (_ & _ & C & _).
      rewrite C. intro Hc'. unfold w' in Hreach. rewrite Hexec in Hreach.
      now apply Hreach. }
  destruct (assign_name_ids collection_id name loaded) as [Hids Hdates].
  split; [subst c; exact Hid|]. split; [subst c; reflexivity|].
  split; [exact Hload|]. rewrite Hload.
  split.
  { subst c. clear - Hfind. unfold find_collection_by_id in *.
    induction loaded as [|x l IH]; [discriminate|].
    cbn [find assign_name] in *.
    destruct (c_id x =? collection_id) eqn:E.
    - injection Hfind as ->. cbn [find renamed c_id]. now rewrite E.
    - cbn [find]. rewrite E. now apply IH. }
  split; [exact Hids|]. split; [exact Hdates|].
  apply assign_name_unique.
Qed.

Lemma renamed_collection_is_listed_witness :
  run load_collections_data
    (with_outcomes [] []
       (exec (update_collection ascii_lower ascii_strip admin 2
                (Some "Journeys")) weddings_world))
  = [mkCollection 1 "Weddings" "2024-01-01T10:00:00";
     mkCollection 2 "Journeys" "2024-01-02T10:00:00"].
Proof.
  destruct (renamed_collection_is_listed ascii_lower ascii_strip admin 2
              (Some "Journeys") weddings_world
              (mkCollection 2 "Journeys" "2024-01-02T10:00:00") [] []
              eq_refl eq_refl) as (_ & _ & H & _).
  - discriminate.
  - exact H.
Defined.

(** X10. What a successful create or rename saves.  A create saves the
    loaded list with the new collection appended; it keeps the names
    pairwise different up to letter case, and the ids distinct when the
    allocator's load returned the list the create had loaded.  A rename
    saves the loaded list with the name assigned; it keeps the ids
    distinct, and keeps the names pairwise different up to letter case
    when the loaded ids are distinct as well. *)
Theorem names_and_ids_stay_unique :
  forall (lower strip : string -> string) (password name_field : option string)
         (now : string) (collection_id : Z) (w : World) (c : collection),
    authorized password = true ->
    let loaded := run load_collections_data w in
    let w1 := exec load_collections_data w in
    (run (create_collection lower strip password name_field now) w
       = SuccessCollection c ->
     exec (create_collection lower strip password name_field now) w
       = exec (save_collections_data (loaded ++ [c]))
           (exec load_collections_data w1) /\
     (unique_names lower loaded -> unique_names lower (loaded ++ [c])) /\
     (unique_ids loaded -> run load_collections_data w1 = loaded ->
      unique_ids (loaded ++ [c]))) /\
    (run (update_collection lower strip password collection_id name_field) w
       = SuccessCollection c ->
     let saved :=
       assign_name collection_id (strip (get_default name_field "")) loaded in
     exec (update_collection lower strip password collection_id name_field) w
       = exec (save_collections_data saved) w1 /\
     (unique_ids loaded -> unique_ids saved) /\
     (unique_ids loaded -> unique_names lower loaded ->
      unique_names lower saved)).
Proof.
  intros lower strip password name_field now collection_id w c Hauth loaded w1.
  split.
  - intro H.
    destruct (create_success_inv lower strip password name_field now w c
                Hauth H) as (Hname & Hnew & Hc & _ & Hexec).
    fold loaded w1 in Hnew, Hc, Hexec.
    split; [exact Hexec|]. split.
    + unfold unique_names. intro U. rewrite map_app.
      apply NoDup_app_remove_l with (l := []). cbn [app].
      apply Permutation_NoDup with (l := (map (fun c => lower (c_name c)) [c]
                                          ++ map (fun c => lower (c_name c))
                                               loaded)%list);
        [apply Permutation_app_comm|].
      cbn [map app]. constructor; [|exact U].
      intro Hin. apply in_map_iff in Hin. destruct Hin as (c' & E & Hin).
      assert (X : existsb (same_name lower (strip (get_default name_field "")))
                    loaded = true).
      { apply existsb_exists. exists c'. split; [exact Hin|].
        unfold same_name. apply String.eqb_eq. rewrite E, Hc. reflexivity. }
      congruence.
    + unfold unique_ids. intros U Hsame. rewrite map_app.
      apply Permutation_NoDup with (l := (map c_id [c] ++ map c_id loaded)%list);
        [apply Permutation_app_comm|].
      cbn [map app]. constructor; [|exact U].
      intro Hin. apply in_map_iff in Hin. destruct Hin as (c' & E & Hin).
      rewrite <- Hsame in Hin.
      pose proof (next_collection_id_is_fresh w1 c' Hin) as Hlt.
      rewrite Hc in E. cbn [c_id] in E. lia.
  - intro H. cbv zeta.
    destruct (update_success_inv lower strip password collection_id name_field
                w c Hauth H) as (Hname & _ & Hnew & _ & Hexec).
    fold loaded w1 in Hnew, Hexec.
    split; [exact Hexec|]. split.
    + unfold unique_ids. intro U.
      now rewrite (proj1 (assign_name_ids _ _ _)).
    + intros Uid Un. unfold unique_ids, unique_names in *.
      set (name := strip (get_default name_field "")) in *.
      clearbody name. clear - Uid Un Hnew.
      induction loaded as [|x l IH]; [constructor|].
      cbn [map existsb assign_name] in *.
      apply orb_false_iff in Hnew. destruct Hnew as [Hx Hl].
      inversion Uid as [|? ? Hni Uid']; subst.
      inversion Un as [|? ? Hnn Un']; subst.
      destruct (c_id x =? collection_id) eqn:E.
      * cbn [map c_name]. constructor; [|exact Un'].
        intro Hin. apply in_map_iff in Hin. destruct Hin as (y & Ey & Hy).
        apply Z.eqb_eq in E.
        assert (Hyid : c_id y <> collection_id).
        { intro Ey'. apply Hni. apply in_map_iff. exists y. split; congruence. }
        assert (X : (same_name lower name y
                     && negb (c_id y =? collection_id))%bool = true).
        { apply andb_true_iff. split.
          - unfold same_name. now apply String.eqb_eq.
          - apply negb_true_iff. now apply Z.eqb_neq. }
        assert (X' : existsb (fun c' => same_name lower name c'
                              && negb (c_id c' =? collection_id))%bool l = true)
          by (apply existsb_exists; now exists y).
        congruence.
      * cbn [map]. constructor; [|now apply IH].
        intro Hin. apply in_map_iff in Hin. destruct Hin as (y & Ey & Hy).
        destruct (assign_name_in _ _ _ _ Hy) as [Hold|[Hnew' _]].
        -- apply Hnn. apply in_map_iff. now exists y.
        -- rewrite Hnew' in Ey. cbn [negb andb] in Hx.
           rewrite andb_true_r in Hx. unfold same_name in Hx.
           apply String.eqb_neq in Hx. congruence.
Qed.

Lemma names_and_ids_stay_unique_witness :
  let loaded := run load_collections_data weddings_world in
  let saved :=
    (loaded ++ [mkCollection 3 "Family" "2024-03-01T12:00:00"])%list in
  unique_names ascii_lower saved /\ unique_ids saved /\
  unique_names ascii_lower (assign_name 2 "Holidays" loaded).
Proof.
  cbv zeta.
  assert (Hn : unique_names ascii_lower
                 (run load_collections_data weddings_world))
    by (vm_compute; repeat constructor; cbn; intuition discriminate).
  assert (Hi : unique_ids (run load_collections_data weddings_world))
    by (vm_compute; repeat constructor; cbn; intuition discriminate).
  destruct (names_and_ids_stay_unique ascii_lower ascii_strip admin
              (Some "Family") "2024-03-01T12:00:00" 0 weddings_world
              (mkCollection 3 "Family" "2024-03-01T12:00:00") eq_refl)
    as [Hcreate _].
  destruct (Hcreate eq_refl) as (_ & Hnames & Hids).
  destruct (names_and_ids_stay_unique ascii_lower ascii_strip admin
              (Some "Holidays") "" 2 weddings_world
              (mkCollection 2 "Holidays" "2024-01-02T10:00:00") eq_refl)
    as [_ Hrename].
  destruct (Hrename eq_refl) as (_ & _ & Hrenamed).
  split; [exact (Hnames Hn)|].
  split; [exact (Hids Hi eq_refl)|].
  exact (Hrenamed Hi Hn).
Defined.

(** The rename part needs the distinct ids: where two collections share the
    id 1, renaming 1 to the name of the second is accepted, for the check
    skips both, and only the first is renamed. *)
Lemma rename_with_shared_id_duplicates_name :
  let rename := update_collection ascii_lower ascii_strip admin 1 (Some "y") in
  succeeded (run rename shared_id_world) = true /\
  map c_name (read_file (collections_file (exec rename shared_id_world)))
  = ["y"; "y"].
Proof. split; reflexivity. Qed.

(** ** Authorization *)

(** X11. Without the admin password (header missing or different) each of
    the five mutating handlers answers 401 "Unauthorized" and leaves the
    world exactly as it was: nothing is loaded, written or sent. *)
Theorem unauthorized_requests_touch_nothing :
  forall (lower strip : string -> string) (password : option string)
         (name_field : option string) (now : string) (collection_id : Z)
         (photo_id : Z) (target : value) (q : upload_request) (w : World),
    password <> Some "Hanshow99@" ->
    u_password q = password ->
    create_collection lower strip password name_field now w
      = (Failure 401 "Unauthorized", w) /\
    update_collection lower strip password collection_id name_field w
      = (Failure 401 "Unauthorized", w) /\
    update_photo_collection password photo_id target w
      = (Failure 401 "Unauthorized", w) /\
    upload_photo lower q w = (Failure 401 "Unauthorized", w) /\
    delete_photo password photo_id w = (Failure 401 "Unauthorized", w).
Proof.
  intros lower strip password name_field now collection_id photo_id target
         q w Hpw Hq.
  assert (A : authorized password = false).
  { unfold authorized. destruct password as [p|]; [|reflexivity].
    apply String.eqb_neq. congruence. }
  unfold create_collection, update_collection, update_photo_collection,
    upload_photo, delete_photo.
  rewrite Hq, A. repeat split.
Qed.

Lemma unauthorized_requests_touch_nothing_witness :
  delete_photo (Some "hanshow99@") 1 (remote_world [])
  = (Failure 401 "Unauthorized", remote_world []) /\
  delete_photo None 1 (remote_world [])
  = (Failure 401 "Unauthorized", remote_world []).
Proof.
  split.
  - apply (unauthorized_requests_touch_nothing ascii_lower ascii_strip
             (Some "hanshow99@") None "" 0 1 VNone
             (mkUpload (Some "hanshow99@") None None None None "" "" "" "" "")
             (remote_world [])); [discriminate|reflexivity].
  - apply (unauthorized_requests_touch_nothing ascii_lower ascii_strip
             None None "" 0 1 VNone
             (mkUpload None None None None None "" "" "" "" "")
             (remote_world [])); [discriminate|reflexivity].
Defined.

(** ** Without a configured store *)

Lemma load_photos_data_unconfigured (w : World) :
  cloudinary_configured w = false ->
  load_photos_data w = (read_file (photos_file w), w).
Proof.
  intro H. unfold load_photos_data, load_photos_from_cloudinary, bind, gets, ret.
  rewrite H. reflexivity.
Qed.

Lemma load_collections_data_unconfigured (w : World) :
  cloudinary_configured w = false ->
  load_collections_data w = (read_file (collections_file w), w).
Proof.
  intro H.
  unfold load_collections_data, load_collections_from_cloudinary, bind, gets, ret.
  rewrite H. reflexivity.
Qed.

Lemma get_next_photo_id_unconfigured (w : World) :
  cloudinary_configured w = false -> exec get_next_photo_id w = w.
Proof.
  intro H. rewrite get_next_photo_id_exec. unfold exec.
  now rewrite load_photos_data_unconfigured.
Qed.

Lemma save_collections_data_unconfigured (data : list collection) (w : World) :
  cloudinary_configured w = false ->
  save_collections_data data w = write_collections_file data w.
Proof.
  intro H. unfold save_collections_data, bind, gets, ret. rewrite H.
  unfold write_collections_file. reflexivity.
Qed.

Lemma add_photo_counts_unconfigured (l : list collection) (w : World) :
  cloudinary_configured w = false ->
  add_photo_counts l w
  = (map (fun c =>
            (c, List.length
                  (filter (fun p => py_eq (p_collection_id p) (VInt (c_id c)))
                     (read_file (photos_file w))))) l, w).
Proof.
  intro H. induction l as [|c l IH]; [reflexivity|].
  cbn [add_photo_counts map]. unfold bind at 1.
  unfold get_collection_photo_count, bind at 1.
  rewrite (load_photos_data_unconfigured w H). unfold ret at 1.
  unfold bind at 1. rewrite IH. reflexivity.
Qed.

Lemma get_collection_name_unconfigured (v : value) (w : World) :
  cloudinary_configured w = false ->
  get_collection_name v w
  = ((if truthy v
      then option_map c_name
             (find_collection v (read_file (collections_file w)))
      else None), w).
Proof.
  intro H. unfold get_collection_name.
  destruct (truthy v); [|reflexivity]. cbn [negb].
  unfold bind. rewrite (load_collections_data_unconfigured w H).
  destruct (find_collection v _); reflexivity.
Qed.

Lemma add_collection_names_unconfigured (l : list photo) (w : World) :
  cloudinary_configured w = false ->
  add_collection_names l w
  = (map (fun p =>
            (p, if truthy (p_collection_id p)
                then Some (option_map c_name
                             (find_collection (p_collection_id p)
                                (read_file (collections_file w))))
                else None)) l, w).
Proof.
  intro H. induction l as [|p l IH]; [reflexivity|].
  cbn [add_collection_names map]. unfold bind at 1.
  destruct (truthy (p_collection_id p)) eqn:T.
  - unfold bind at 1. rewrite (get_collection_name_unconfigured _ w H), T.
    unfold ret at 1. unfold bind at 1. rewrite IH. reflexivity.
  - unfold ret at 1. unfold bind at 1. rewrite IH. reflexivity.
Qed.

(** X12. There is no local-only upload: when the store is not configured an
    upload never succeeds and leaves the world exactly as it was; a request
    that passes every check is answered 500 "Cloudinary not configured". *)
Theorem unconfigured_upload_fails_cleanly :
  forall (lower : string -> string) (q : upload_request) (w : World),
    cloudinary_configured w = false ->
    succeeded (run (upload_photo lower q) w) = false /\
    exec (upload_photo lower q) w = w /\
    (authorized (u_password q) = true ->
     u_collection_id q = None ->
     (exists filename, u_filename q = Some filename /\ filename <> "") ->
     run (upload_photo lower q) w = Failure 500 "Cloudinary not configured").
Proof.
  intros lower q w H.
  assert (tail : forall collection_id : value,
    let k :=
      match u_filename q with
      | None => ret (Failure 400 "No photo file provided")
      | Some filename =>
          if (filename =? "")%string
          then ret (Failure 400 "No photo file selected")
          else
            let unique := unique_filename lower (u_uuid_hex q) filename in
            photo_id <- get_next_photo_id ;;
            configured <- gets cloudinary_configured ;;
            if configured then
              result <-
                uploader_upload
                  ("photo_" ++ py_str_int photo_id ++ "_" ++ unique)
                  (context_of photo_id filename
                     (get_default (u_title q) "Untitled")
                     (get_default (u_description q) "")
                     collection_id (u_now_context q))
                  (u_secure_url q) (u_created_at q) ;;
              match result with
              | Some (secure_url, public_id) =>
                  ret (SuccessPhoto
                         (mkPhoto photo_id filename
                            (get_default (u_title q) "Untitled")
                            (get_default (u_description q) "")
                            collection_id secure_url (Some public_id)
                            secure_url (u_now_record q) "cloudinary"))
              | None => ret (Failure 500 "Upload failed: ")
              end
            else ret (Failure 500 "Cloudinary not configured")
      end in
    succeeded (fst (k w)) = false /\ snd (k w) = w /\
    ((exists filename, u_filename q = Some filename /\ filename <> "") ->
     fst (k w) = Failure 500 "Cloudinary not configured")).
  { intro collection_id. cbv zeta.
    destruct (u_filename q) as [filename|].
    - destruct (filename =? "")%string eqn:E.
      + repeat split. intros (f & Hf & Hne). injection Hf as <-.
        apply String.eqb_eq in E. contradiction.
      + match goal with
        | |- succeeded (fst ?t) = _ /\ _ => remember t as res eqn:R
        end.
        unfold bind at 1 in R. rewrite get_next_photo_id_pair in R.
        rewrite <- get_next_photo_id_exec,
          (get_next_photo_id_unconfigured w H) in R.
        unfold bind, gets in R. rewrite H in R. subst res.
        repeat split.
    - repeat split. intros (f & Hf & _). discriminate. }
  unfold upload_photo, run, exec.
  destruct (authorized (u_password q)); cbn [negb];
    [|repeat split; intro; discriminate].
  match goal with
  | |- succeeded (fst ?t) = _ /\ _ => remember t as res eqn:R
  end.
  unfold bind at 1 in R.
  destruct (u_collection_id q) as [s|].
  - destruct (s =? "")%string.
    + unfold ret at 1 in R. cbv beta iota in R. subst res.
      destruct (tail VNone) as (T1 & T2 & _).
      repeat split; [exact T1|exact T2|discriminate].
    + destruct (py_int_str s) as [n|];
        [|subst res; repeat split; intros; discriminate].
      unfold bind at 1 in R. rewrite (load_collections_data_unconfigured w H) in R.
      destruct (existsb _ _);
        [|subst res; repeat split; intros; discriminate].
      unfold ret at 1 in R. cbv beta iota in R. subst res.
      destruct (tail (VInt n)) as (T1 & T2 & _).
      repeat split; [exact T1|exact T2|discriminate].
  - unfold ret at 1 in R. cbv beta iota in R. subst res.
    destruct (tail VNone) as (T1 & T2 & T3).
    repeat split; [exact T1|exact T2|]. intros _ _. exact T3.
Qed.

Lemma unconfigured_upload_fails_cleanly_witness :
  upload_photo ascii_lower untitled_upload weddings_world
  = (Failure 500 "Cloudinary not configured", weddings_world).
Proof.
  destruct (unconfigured_upload_fails_cleanly ascii_lower untitled_upload
              weddings_world eq_refl) as (_ & Hexec & Hrun).
  rewrite (run_exec_pair (upload_photo ascii_lower untitled_upload)
             weddings_world).
  rewrite Hexec, Hrun; [reflexivity|reflexivity|reflexivity|].
  exists "holiday". split; [reflexivity|discriminate].
Defined.

Lemma get_next_collection_id_unconfigured (w : World) :
  cloudinary_configured w = false ->
  get_next_collection_id w = (run get_next_collection_id w, w).
Proof.
  intro H. rewrite get_next_collection_id_pair. unfold exec.
  now rewrite load_collections_data_unconfigured.
Qed.

(** X13. When the store is not configured, a create or rename does nothing
    to the world or makes exactly one write of the collections cache, and a
    reassignment or delete does nothing or makes exactly one write of the
    photo cache; no remote call is made and the remote side stays as it
    was. *)
Theorem unconfigured_handlers_write_locally_only :
  forall (lower strip : string -> string) (password name_field : option string)
         (now : string) (collection_id photo_id : Z) (target : value)
         (w : World),
    cloudinary_configured w = false ->
    let local_collections w' :=
      w' = w \/ exists data, w' = exec (write_collections_file data) w in
    let local_photos w' :=
      w' = w \/ exists data, w' = exec (write_photos_file data) w in
    local_collections
      (exec (create_collection lower strip password name_field now) w) /\
    local_collections
      (exec (update_collection lower strip password collection_id name_field)
         w) /\
    local_photos (exec (update_photo_collection password photo_id target) w) /\
    local_photos (exec (delete_photo password photo_id) w) /\
    forall (collections_data : list collection) (photos_data : list photo),
      same_remote w (exec (write_collections_file collections_data) w) /\
      same_remote w (exec (write_photos_file photos_data) w) /\
      remote_events (log (exec (write_collections_file collections_data) w))
        = remote_events (log w) /\
      remote_events (log (exec (write_photos_file photos_data) w))
        = remote_events (log w).
Proof.
  intros lower strip password name_field now collection_id photo_id target
         w H. cbv zeta.
  split; [|split; [|split; [|split]]].
  - remember (exec (create_collection lower strip password name_field now) w)
      as w' eqn:R.
    unfold exec, create_collection in R.
    destruct (authorized password); cbn [negb] in R; [|now left].
    destruct (_ =? "")%string; [now left|].
    unfold bind at 1 in R. rewrite (load_collections_data_unconfigured w H) in R.
    destruct (existsb _ _); [now left|].
    unfold bind at 1 in R.
    rewrite (get_next_collection_id_unconfigured w H) in R.
    unfold bind at 1 in R.
    rewrite (save_collections_data_unconfigured _ w H) in R.
    rewrite (run_exec_pair (write_collections_file _) w) in R.
    right. eexists.
    destruct (run (write_collections_file _) w); exact R.
  - remember (exec (update_collection lower strip password collection_id
                      name_field) w) as w' eqn:R.
    unfold exec, update_collection in R.
    destruct (authorized password); cbn [negb] in R; [|now left].
    destruct (_ =? "")%string; [now left|].
    unfold bind at 1 in R. rewrite (load_collections_data_unconfigured w H) in R.
    destruct (find_collection_by_id _ _); [|now left].
    destruct (existsb _ _); [now left|].
    unfold bind at 1 in R.
    rewrite (save_collections_data_unconfigured _ w H) in R.
    rewrite (run_exec_pair (write_collections_file _) w) in R.
    right. eexists.
    destruct (run (write_collections_file _) w); exact R.
  - assert (tail : forall (v : value) (w' : World),
      w' = snd ((photos_data <- load_photos_data ;;
            match find_photo photo_id photos_data with
            | None => ret (Failure 404 "Photo not found")
            | Some photo =>
                configured <- gets cloudinary_configured ;;
                updated <-
                  match configured, p_cloudinary_public_id photo with
                  | true, Some public_id =>
                      uploader_explicit public_id
                        (context_of (p_id photo) (p_filename photo)
                           (p_title photo) (p_description photo) v
                           (p_upload_date photo))
                  | _, _ => ret true
                  end ;;
                if negb updated
                then ret (Failure 500 "Failed to update photo in Cloudinary")
                else
                  write_photos_file (assign_collection photo_id v photos_data) ;;;
                  ret Success
            end) w) ->
      w' = w \/ exists data, w' = exec (write_photos_file data) w).
    { intros v w' R.
      unfold bind at 1 in R. rewrite (load_photos_data_unconfigured w H) in R.
      destruct (find_photo _ _); [|now left].
      unfold bind at 1, gets at 1 in R. rewrite H in R.
      unfold bind at 1, ret at 1 in R. cbn [negb] in R.
      unfold bind at 1 in R.
      rewrite (run_exec_pair (write_photos_file _) w) in R.
      right. eexists. exact R. }
    remember (exec (update_photo_collection password photo_id target) w)
      as w' eqn:R.
    unfold exec, update_photo_collection in R.
    destruct (authorized password); cbn [negb] in R; [|now left].
    unfold bind at 1 in R.
    destruct (truthy target).
    + unfold bind at 1 in R.
      rewrite (load_collections_data_unconfigured w H) in R.
      destruct (read_file (collections_file w)) as [|c l]; [now left|].
      destruct (py_int target) as [n|]; [|now left].
      destruct (existsb _ _); [|now left].
      unfold ret at 1 in R. cbv beta iota in R. now apply (tail (VInt n)).
    + unfold ret at 1 in R. cbv beta iota in R. now apply (tail target).
  - remember (exec (delete_photo password photo_id) w) as w' eqn:R.
    unfold exec, delete_photo in R.
    destruct (authorized password); cbn [negb] in R; [|now left].
    unfold bind at 1 in R. rewrite (load_photos_data_unconfigured w H) in R.
    destruct (find_photo _ _); [|now left].
    unfold bind at 1, gets at 1 in R. rewrite H in R.
    unfold bind at 1, ret at 1 in R. unfold bind at 1 in R.
    rewrite (run_exec_pair (write_photos_file _) w) in R.
    right. eexists. exact R.
  - intros collections_data photos_data.
    unfold same_remote, remote_events, exec,
      write_collections_file, write_photos_file.
    cbn [snd cloudinary_configured assets collections_metadata net log].
    rewrite !filter_app. cbn [filter]. rewrite !app_nil_r.
    repeat split.
Qed.

Lemma unconfigured_handlers_write_locally_only_witness :
  same_remote weddings_world
    (exec (create_collection ascii_lower ascii_strip admin (Some "Family")
             "2024-03-01T12:00:00") weddings_world).
Proof.
  destruct (unconfigured_handlers_write_locally_only ascii_lower ascii_strip
              admin (Some "Family") "2024-03-01T12:00:00" 0 0 VNone
              weddings_world eq_refl) as (Hc & _ & _ & _ & Hw).
  destruct Hc as [->|[data ->]].
  - repeat split.
  - apply (Hw data []).
Defined.

(** ** Upload validation *)



(** ** Counting photos two ways *)

Lemma filter_length_le {A} (f g : A -> bool) (l : list A) :
  (forall x, In x l -> f x = true -> g x = true) ->
  (List.length (filter f l) <= List.length (filter g l))%nat.
Proof.
  induction l as [|x l IH]; intro H; [constructor|].
  cbn [filter].
  assert (IH' : (List.length (filter f l) <= List.length (filter g l))%nat)
    by (apply IH; intros y Hy; apply H; now right).
  destruct (f x) eqn:F.
  - rewrite (H x (or_introl eq_refl) F). cbn [List.length]. lia.
  - destruct (g x); cbn [List.length]; lia.
Qed.

Lemma py_eq_in_collection (collection_id : Z) (p : photo) :
  py_eq (p_collection_id p) (VInt collection_id) = true ->
  in_collection collection_id p = true.
Proof.
  unfold in_collection. destruct (p_collection_id p) as [|z|s]; cbn [py_eq];
    try discriminate.
  intro E. apply Z.eqb_eq in E. subst z. apply String.eqb_refl.
Qed.

Lemma in_collection_py_eq (collection_id : Z) (p : photo) :
  (forall s, p_collection_id p <> VStr s) ->
  in_collection collection_id p
  = py_eq (p_collection_id p) (VInt collection_id).
Proof.
  unfold in_collection. intro H.
  destruct (p_collection_id p) as [|z|s]; cbn [py_eq py_str].
  - reflexivity.
  - destruct (Z.eqb_spec z collection_id) as [->|N].
    + apply String.eqb_refl.
    + apply String.eqb_neq. intro E. apply N. now apply py_str_int_inj.
  - now destruct (H s).
Qed.

(** X15. The count that the collection list shows for a collection never
    exceeds the number of photos that the collection's own page lists from
    the same world, and the two agree when no loaded photo stores its
    collection as a string. *)
Theorem photo_count_at_most_total_count :
  forall (collection_id : Z) (w : World) (out : list photo) (c : collection)
         (total : nat),
    run (get_collection_photos collection_id) w = SuccessPhotos out c total ->
    total = List.length out /\
    (run (get_collection_photo_count (VInt collection_id)) w <= total)%nat /\
    (Forall (fun p => forall s, p_collection_id p <> VStr s)
       (run load_photos_data w) ->
     run (get_collection_photo_count (VInt collection_id)) w = total).
Proof.
  intros collection_id w out c total H.
  rewrite get_collection_photo_count_result.
  unfold get_collection_photos, run in H. unfold bind at 1 in H.
  rewrite (run_exec_pair load_photos_data w) in H.
  unfold bind at 1 in H.
  rewrite (run_exec_pair load_collections_data (exec load_photos_data w)) in H.
  destruct (find_collection_by_id _ _) as [c'|]; [|discriminate].
  cbn [ret fst] in H. injection H as <- <- <-.
  set (photos_data := run load_photos_data w).
  rewrite (Permutation_length (py_sort_perm newer _)).
  split; [reflexivity|]. split.
  - apply filter_length_le. intros p _. apply py_eq_in_collection.
  - intro Hall. f_equal. apply filter_ext_in. intros p Hin.
    rewrite Forall_forall in Hall. symmetry.
    now apply in_collection_py_eq, Hall.
Qed.

Lemma photo_count_at_most_total_count_witness :
  (run (get_collection_photo_count (VInt 3)) drift_world <= 2)%nat.
Proof.
  destruct (photo_count_at_most_total_count 3 drift_world _ _ _ eq_refl)
    as (_ & H & _).
  exact H.
Defined.

(** ** The collection list with its counts *)

Lemma add_photo_counts_fst (l : list collection) :
  forall w : World, map fst (run (add_photo_counts l) w) = l.
Proof.
  induction l as [|c l IH]; intro w; [reflexivity|].
  cbn [add_photo_counts]. unfold run, bind at 1.
  destruct (get_collection_photo_count (VInt (c_id c)) w) as [n w1].
  unfold bind at 1. specialize (IH w1). unfold run in IH.
  destruct (add_photo_counts l w1) as [rest w2]. cbn [fst ret map] in *.
  now rewrite IH.
Qed.

Lemma list_sum_cons (x : nat) (l : list nat) :
  list_sum (x :: l) = (x + list_sum l)%nat.
Proof. reflexivity. Qed.

Lemma hits_at_most_one (v : value) (ids : list Z) :
  NoDup ids ->
  (list_sum (map (fun i => if py_eq v (VInt i) then 1 else 0)%nat ids) <= 1)%nat.
Proof.
  induction 1 as [|i ids Hni Hnd IH]; cbn [map]; [cbn; lia|].
  rewrite list_sum_cons.
  destruct (py_eq v (VInt i)) eqn:E; [|lia].
  assert (Z0 : list_sum (map (fun j => if py_eq v (VInt j) then 1 else 0)%nat
                           ids) = 0%nat).
  { clear IH Hnd. induction ids as [|j ids IHj]; [reflexivity|].
    cbn [map]. rewrite list_sum_cons.
    destruct (py_eq v (VInt j)) eqn:F.
    - exfalso. apply Hni. left.
      destruct v as [|z|s]; cbn [py_eq] in *; try discriminate.
      apply Z.eqb_eq in E, F. congruence.
    - cbn [Nat.add]. apply IHj. intro Hin. apply Hni. now right. }
  lia.
Qed.

Lemma counted_sum_le (ids : list Z) (photos_data : list photo) :
  NoDup ids ->
  (list_sum (map (fun i => counted i photos_data) ids)
   <= List.length photos_data)%nat.
Proof.
  intro Hnd. induction photos_data as [|p l IH]; cbn [List.length].
  - clear Hnd. induction ids as [|i ids IHi]; [cbn; lia|].
    cbn [map]. rewrite list_sum_cons. unfold counted at 1.
    cbn [filter List.length Nat.add]. exact IHi.
  - assert (E : list_sum (map (fun i => counted i (p :: l)) ids)
                = (list_sum (map (fun i => if py_eq (p_collection_id p) (VInt i)
                                          then 1 else 0) ids)
                   + list_sum (map (fun i => counted i l) ids))%nat).
    { clear. unfold counted. induction ids as [|i ids IHi]; [reflexivity|].
      cbn [map]. rewrite !list_sum_cons, IHi. cbn [filter].
      destruct (py_eq (p_collection_id p) (VInt i)); cbn [List.length]; lia. }
    rewrite E. pose proof (hits_at_most_one (p_collection_id p) ids Hnd). lia.
Qed.

(** X16. The collection list answers the loaded collections in their order,
    one count each.  When the store is not configured the handler changes
    nothing, each count is the number of cached photos whose
    [collection_id] equals the collection's id, and, the ids being
    distinct, the counts add up to no more than the number of photos. *)
Theorem collection_counts_partition_the_photos :
  forall w : World,
    map fst (run get_collections w) = run load_collections_data w /\
    (cloudinary_configured w = false ->
     exec get_collections w = w /\
     map snd (run get_collections w)
       = map (fun c => counted (c_id c) (read_file (photos_file w)))
           (read_file (collections_file w)) /\
     (unique_ids (read_file (collections_file w)) ->
      (list_sum (map snd (run get_collections w))
       <= List.length (read_file (photos_file w)))%nat)).
Proof.
  intro w. split.
  - unfold get_collections, run, bind.
    pose proof (add_photo_counts_fst (fst (load_collections_data w))
                  (snd (load_collections_data w))) as F.
    unfold run in F.
    destruct (load_collections_data w) as [l w1]. exact F.
  - intro H.
    assert (E : get_collections w
                = (map (fun c => (c, counted (c_id c)
                                       (read_file (photos_file w))))
                     (read_file (collections_file w)), w)).
    { unfold get_collections, bind.
      rewrite (load_collections_data_unconfigured w H).
      now rewrite (add_photo_counts_unconfigured _ w H). }
    unfold run, exec. rewrite E. cbn [fst snd].
    rewrite map_map. cbn [snd].
    split; [reflexivity|]. split; [reflexivity|].
    intro U. unfold unique_ids in U.
    rewrite <- (map_map c_id (fun i => counted i (read_file (photos_file w)))).
    now apply counted_sum_le.
Qed.

Lemma collection_counts_partition_the_photos_witness :
  (list_sum (map snd (run get_collections drift_world)) <= 2)%nat.
Proof.
  destruct (collection_counts_partition_the_photos drift_world)
    as (_ & H).
  destruct (H eq_refl) as (_ & _ & U). apply U.
  vm_compute. repeat constructor. intros [].
Defined.

(** ** Remote calls made by the read handlers *)

Lemma calls_app (l : list event) (e : event) :
  listing_calls (l ++ [e])
  = (listing_calls l
     + once_if match e with Remote ApiResources _ => true | _ => false end)%nat /\
  document_calls (l ++ [e])
  = (document_calls l
     + once_if match e with Remote ApiResource _ => true | _ => false end)%nat.
Proof.
  unfold listing_calls, document_calls. rewrite !filter_app, !length_app.
  cbn [filter]. split; f_equal.
  - destruct e as [[] ?|]; reflexivity.
  - destruct e as [[] ?|]; reflexivity.
Qed.

Lemma load_photos_data_calls (w : World) :
  let w' := exec load_photos_data w in
  listing_calls (log w')
  = (listing_calls (log w) + once_if (cloudinary_configured w))%nat /\
  document_calls (log w') = document_calls (log w).
Proof.
  unfold load_photos_data, load_photos_from_cloudinary, exec, bind, gets, ret.
  destruct (cloudinary_configured w); cbn [negb once_if].
  - unfold remote_call. cbn [fst snd].
    destruct (next_net w); cbn [assets].
    + destruct (listed_photos (assets w)); cbn [snd log photos_file];
        unfold write_photos_file; cbn [snd log];
        rewrite ?(proj1 (calls_app _ _)), ?(proj2 (calls_app _ _));
        cbn [once_if]; split; lia.
    + cbn [snd log photos_file].
      rewrite ?(proj1 (calls_app _ _)), ?(proj2 (calls_app _ _)).
      cbn [once_if]. split; lia.
  - cbn [snd]. split; lia.
Qed.

Lemma load_collections_data_calls (w : World) :
  let w' := exec load_collections_data w in
  listing_calls (log w') = listing_calls (log w) /\
  document_calls (log w')
  = (document_calls (log w) + once_if (cloudinary_configured w))%nat.
Proof.
  unfold load_collections_data, load_collections_from_cloudinary, exec, bind,
    gets, ret.
  destruct (cloudinary_configured w); cbn [negb once_if].
  - unfold remote_call. cbn [fst snd collections_metadata].
    destruct (next_net w), (collections_metadata w) as [[|c l]|];
      cbn [fst snd log net collections_metadata collections_file next_net];
      try (rewrite ?(proj1 (calls_app _ _)), ?(proj2 (calls_app _ _));
           cbn [once_if]; split; lia).
    + destruct (next_net _); cbn [snd log];
        rewrite ?(proj1 (calls_app _ _)), ?(proj2 (calls_app _ _));
        cbn [once_if]; split; lia.
    + destruct (next_net _); cbn [snd log];
        unfold write_collections_file; cbn [snd log];
        rewrite ?(proj1 (calls_app _ _)), ?(proj2 (calls_app _ _));
        cbn [once_if]; split; lia.
  - cbn [snd]. split; lia.
Qed.

Lemma exec_bind {A B} (m : M A) (k : A -> M B) (w : World) :
  exec (bind m k) w = exec (k (run m w)) (exec m w).
Proof. unfold exec, run, bind. destruct (m w); reflexivity. Qed.

Lemma run_bind {A B} (m : M A) (k : A -> M B) (w : World) :
  run (bind m k) w = run (k (run m w)) (exec m w).
Proof. unfold exec, run, bind. destruct (m w); reflexivity. Qed.

Lemma get_collection_photo_count_exec (v : value) (w : World) :
  exec (get_collection_photo_count v) w = exec load_photos_data w.
Proof.
  unfold get_collection_photo_count, exec, bind.
  destruct (load_photos_data w); reflexivity.
Qed.

Lemma get_collection_name_exec (v : value) (w : World) :
  exec (get_collection_name v) w
  = if truthy v then exec load_collections_data w else w.
Proof.
  unfold get_collection_name, exec. destruct (truthy v); [|reflexivity].
  cbn [negb]. unfold bind.
  destruct (load_collections_data w) as [l w1].
  destruct (find_collection v l); reflexivity.
Qed.

Lemma add_photo_counts_calls (l : list collection) :
  forall w : World,
    let w' := exec (add_photo_counts l) w in
    cloudinary_configured w' = cloudinary_configured w /\
    listing_calls (log w')
    = (listing_calls (log w)
       + List.length l * once_if (cloudinary_configured w))%nat /\
    document_calls (log w') = document_calls (log w).
Proof.
  induction l as [|c l IH]; intro w; cbv zeta.
  - cbn. repeat split; lia.
  - cbn [add_photo_counts]. rewrite !exec_bind.
    rewrite get_collection_photo_count_exec.
    change (exec (ret ?x) ?y) with y.
    destruct (IH (exec load_photos_data w)) as (C & L & D).
    destruct (load_photos_data_calls w) as (L0 & D0).
    destruct (load_photos_data_spec w) as (_ & _ & C0 & _).
    rewrite C, L, D, C0, L0, D0. cbn [List.length]. repeat split; lia.
Qed.

Lemma add_collection_names_calls (l : list photo) :
  forall w : World,
    let w' := exec (add_collection_names l) w in
    cloudinary_configured w' = cloudinary_configured w /\
    listing_calls (log w') = listing_calls (log w) /\
    document_calls (log w')
    = (document_calls (log w)
       + List.length (filter (fun p => truthy (p_collection_id p)) l)
         * once_if (cloudinary_configured w))%nat.
Proof.
  induction l as [|p l IH]; intro w; cbv zeta.
  - cbn. repeat split; lia.
  - cbn [add_collection_names filter]. rewrite !exec_bind.
    change (exec (ret ?x) ?y) with y.
    destruct (truthy (p_collection_id p)) eqn:T.
    + rewrite exec_bind, get_collection_name_exec, T.
      change (exec (ret ?x) ?y) with y.
      destruct (IH (exec load_collections_data w)) as (C & L & D).
      destruct (load_collections_data_calls w) as (L0 & D0).
      destruct (load_collections_data_spec w) as (_ & _ & C0 & _).
      rewrite C, L, D, C0, L0, D0. cbn [List.length]. repeat split; lia.
    + change (exec (ret ?x) ?y) with y. apply IH.
Qed.

(** X17. With a configured store, the collection list asks the store for
    the asset listing once per loaded collection, and the photo list asks
    for the collections document once and then once more for every loaded
    photo that has a collection; without a configured store neither makes
    such a call. *)
Theorem read_handlers_call_the_store_per_item :
  forall w : World,
    listing_calls (log (exec get_collections w))
    = (listing_calls (log w)
       + List.length (run load_collections_data w)
         * once_if (cloudinary_configured w))%nat /\
    listing_calls (log (exec get_photos w))
    = (listing_calls (log w) + once_if (cloudinary_configured w))%nat /\
    document_calls (log (exec get_photos w))
    = (document_calls (log w)
       + (1 + List.length
                (filter (fun p => truthy (p_collection_id p))
                   (run load_photos_data w)))
         * once_if (cloudinary_configured w))%nat.
Proof.
  intro w. unfold get_collections, get_photos. rewrite !exec_bind.
  destruct (add_photo_counts_calls (run load_collections_data w)
              (exec load_collections_data w)) as (_ & L & _).
  destruct (load_collections_data_calls w) as (L0 & _).
  destruct (load_collections_data_spec w) as (_ & _ & C0 & _).
  destruct (add_collection_names_calls (run load_photos_data w)
              (exec load_collections_data (exec load_photos_data w)))
    as (_ & L' & D').
  destruct (load_collections_data_calls (exec load_photos_data w))
    as (L1 & D1).
  destruct (load_photos_data_calls w) as (L2 & D2).
  destruct (load_photos_data_spec w) as (_ & _ & C2 & _).
  destruct (load_collections_data_spec (exec load_photos_data w))
    as (_ & _ & C1 & _).
  split; [|split].
  - rewrite L, L0, C0. reflexivity.
  - rewrite L', L1, L2. reflexivity.
  - rewrite D', D1, D2, C1, C2. lia.
Qed.

(** ** The photo list with its collection names *)

Lemma get_collection_name_string (s : string) (w : World) :
  run (get_collection_name (VStr s)) w = None.
Proof.
  unfold get_collection_name, run.
  destruct (negb (truthy (VStr s))); [reflexivity|].
  unfold bind. destruct (load_collections_data w) as [l w1].
  assert (F : find_collection (VStr s) l = None).
  { unfold find_collection. induction l as [|c l IH]; [reflexivity|].
    cbn [find py_eq]. exact IH. }
  now rewrite F.
Qed.

Lemma add_collection_names_shape (l : list photo) :
  forall w : World,
    map fst (run (add_collection_names l) w) = l /\
    Forall annotation_ok (run (add_collection_names l) w).
Proof.
  induction l as [|p l IH]; intro w; [split; [reflexivity|constructor]|].
  cbn [add_collection_names]. rewrite run_bind.
  rewrite run_bind. change (run (ret ?x) ?y) with x.
  destruct (IH (exec (if truthy (p_collection_id p)
                      then n <- get_collection_name (p_collection_id p) ;;
                           ret (Some n)
                      else ret None) w)) as [F A].
  cbn [map fst]. rewrite F. split; [reflexivity|].
  constructor; [|exact A].
  unfold annotation_ok. cbn [fst snd].
  destruct (truthy (p_collection_id p)) eqn:T.
  - rewrite run_bind. change (run (ret ?x) ?y) with x.
    split; [reflexivity|]. intros [s Hs]. rewrite Hs.
    now rewrite get_collection_name_string.
  - reflexivity.
Qed.

(** X18. The photo list answers the loaded photos in their order; a photo
    gets a collection name exactly when its [collection_id] is truthy, and
    that name is null whenever the id is stored as a string.  When the
    store is not configured the handler changes nothing and the name is
    that of the first cached collection with the photo's id, null when
    there is none. *)
Theorem photo_list_names_collections :
  forall w : World,
    map fst (run get_photos w) = run load_photos_data w /\
    Forall annotation_ok (run get_photos w) /\
    (cloudinary_configured w = false ->
     exec get_photos w = w /\
     run get_photos w
     = map (fun p =>
              (p, if truthy (p_collection_id p)
                  then Some (option_map c_name
                               (find_collection (p_collection_id p)
                                  (read_file (collections_file w))))
                  else None))
         (read_file (photos_file w))).
Proof.
  intro w. unfold get_photos.
  rewrite !run_bind.
  destruct (add_collection_names_shape (run load_photos_data w)
              (exec load_collections_data (exec load_photos_data w)))
    as [F A].
  split; [exact F|]. split; [exact A|].
  intro H. rewrite !exec_bind.
  unfold run, exec.
  rewrite (load_photos_data_unconfigured w H). cbn [fst snd].
  rewrite (load_collections_data_unconfigured w H). cbn [fst snd].
  rewrite (add_collection_names_unconfigured _ w H). split; reflexivity.
Qed.

Lemma photo_list_names_collections_witness :
  map snd (run get_photos drift_world) = [Some None; Some (Some "Weddings")].
Proof.
  destruct (photo_list_names_collections drift_world) as (_ & _ & H).
  destruct (H eq_refl) as [_ E]. rewrite E. reflexivity.
Defined.

(** ** Reassigning a photo: the successful path *)

(** The handler, step by step. *)
Lemma update_photo_collection_spec (password : option string) (photo_id : Z)
  (target : value) (w : World) :
  authorized password = true ->
  let w1 := if truthy target then exec load_collections_data w else w in
  update_photo_collection password photo_id target w
  = match validated target (run load_collections_data w) with
    | inl r => (r, w1)
    | inr v =>
        let photos_data := run load_photos_data w1 in
        let w2 := exec load_photos_data w1 in
        match find_photo photo_id photos_data with
        | None => (Failure 404 "Photo not found", w2)
        | Some photo =>
            let w3 := exec (remote_update photo v) w2 in
            if run (remote_update photo v) w2
            then (Success,
                  exec (write_photos_file
                          (assign_collection photo_id v photos_data)) w3)
            else (Failure 500 "Failed to update photo in Cloudinary", w3)
        end
    end.
Proof.
  intro Hauth. cbv zeta.
  assert (tail : forall (v : value) (w1 : World),
    (photos_data <- load_photos_data ;;
     match find_photo photo_id photos_data with
     | None => ret (Failure 404 "Photo not found")
     | Some photo =>
         configured <- gets cloudinary_configured ;;
         updated <-
           match configured, p_cloudinary_public_id photo with
           | true, Some public_id =>
               uploader_explicit public_id
                 (context_of (p_id photo) (p_filename photo) (p_title photo)
                    (p_description photo) v (p_upload_date photo))
           | _, _ => ret true
           end ;;
         if negb updated
         then ret (Failure 500 "Failed to update photo in Cloudinary")
         else
           write_photos_file (assign_collection photo_id v photos_data) ;;;
           ret Success
     end) w1
    = match find_photo photo_id (run load_photos_data w1) with
      | None => (Failure 404 "Photo not found", exec load_photos_data w1)
      | Some photo =>
          if run (remote_update photo v) (exec load_photos_data w1)
          then (Success,
                exec (write_photos_file
                        (assign_collection photo_id v
                           (run load_photos_data w1)))
                  (exec (remote_update photo v) (exec load_photos_data w1)))
          else (Failure 500 "Failed to update photo in Cloudinary",
                exec (remote_update photo v) (exec load_photos_data w1))
      end).
  { intros v w1. unfold bind at 1.
    rewrite (run_exec_pair load_photos_data w1).
    destruct (find_photo photo_id (run load_photos_data w1)) as [photo|];
      [|reflexivity].
    unfold remote_update, run, exec, bind, gets.
    destruct (cloudinary_configured (snd (load_photos_data w1)));
      [destruct (p_cloudinary_public_id photo) as [pk|]|].
    - destruct (uploader_explicit pk _ _) as [[] w3]; cbn [negb fst snd ret].
      + destruct (write_photos_file _ w3); reflexivity.
      + reflexivity.
    - cbn [negb fst snd ret].
      destruct (write_photos_file _ _); reflexivity.
    - cbn [negb fst snd ret].
      destruct (write_photos_file _ _); reflexivity. }
  unfold update_photo_collection, validated. rewrite Hauth. cbn [negb].
  unfold bind at 1.
  destruct (truthy target).
  - unfold bind at 1. rewrite (run_exec_pair load_collections_data w).
    destruct (run load_collections_data w) as [|c l]; [reflexivity|].
    destruct (py_int target) as [n|]; [|reflexivity].
    destruct (existsb _ _); [|reflexivity].
    unfold ret at 1. cbv beta iota. apply tail.
  - unfold ret at 1. cbv beta iota. apply tail.
Qed.

Lemma assign_collection_facts (photo_id : Z) (v : value) (l : list photo) :
  map p_id (assign_collection photo_id v l) = map p_id l /\
  find_photo photo_id (assign_collection photo_id v l)
  = option_map (reassigned v) (find_photo photo_id l) /\
  (forall p, In p l -> p_id p <> photo_id ->
             In p (assign_collection photo_id v l)).
Proof.
  unfold find_photo. induction l as [|x l (IH1 & IH2 & IH3)].
  - repeat split. intros p [].
  - cbn [assign_collection find map].
    destruct (p_id x =? photo_id) eqn:E.
    + cbn [find map p_id]. rewrite E. repeat split.
      intros p [<-|Hin] Hne; [|now right].
      apply Z.eqb_eq in E. contradiction.
    + cbn [find map]. rewrite E, IH1. repeat split; [exact IH2|].
      intros p [<-|Hin] Hne; [now left|right; now apply IH3].
Qed.

Lemma remote_update_spec (photo : photo) (v : value) (w : World) :
  let w' := exec (remote_update photo v) w in
  photos_file w' = photos_file w /\
  disk w' = disk w /\
  (run (remote_update photo v) w = true ->
   cloudinary_configured w = true ->
   forall public_id, p_cloudinary_public_id photo = Some public_id ->
     has_asset public_id (assets w) = true /\
     assets w'
     = set_context public_id
         (context_of (p_id photo) (p_filename photo) (p_title photo)
            (p_description photo) v (p_upload_date photo)) (assets w)).
Proof.
  unfold remote_update, run, exec, bind, gets.
  destruct (cloudinary_configured w) eqn:C;
    [destruct (p_cloudinary_public_id photo) as [pk|]|];
    try (cbn; repeat split; intros; discriminate).
  unfold uploader_explicit, bind, remote_call, gets, set_assets, ret.
  cbn [fst snd assets].
  destruct (next_net w && has_asset pk (assets w))%bool eqn:B;
    cbn [fst snd photos_file disk assets].
  - split; [reflexivity|]. split; [reflexivity|].
    intros _ _ pk' E. injection E as <-.
    apply andb_true_iff in B. split; [apply B|reflexivity].
  - split; [reflexivity|]. split; [reflexivity|]. intro; discriminate.
Qed.

Lemma set_context_reads_back (public_id : string) (ctx : context)
  (a : list resource) (r : resource) :
  In r (set_context public_id ctx a) ->
  r_public_id r = public_id ->
  r_context r = Some ctx.
Proof.
  unfold set_context. intros Hin Hid. apply in_map_iff in Hin.
  destruct Hin as (x & E & _).
  destruct (r_public_id x =? public_id)%string eqn:B.
  - subst r. reflexivity.
  - subst r. apply String.eqb_neq in B. contradiction.
Qed.

Lemma has_asset_set_context (public_id : string) (ctx : context)
  (a : list resource) :
  has_asset public_id (set_context public_id ctx a) = has_asset public_id a.
Proof.
  unfold has_asset, set_context. induction a as [|x a IH]; [reflexivity|].
  cbn [map existsb]. rewrite IH. f_equal.
  destruct (r_public_id x =? public_id)%string eqn:B; cbn [r_public_id];
    now rewrite B.
Qed.

(** X19. A reassignment that answers success has found the photo and a
    target that passed the check.  Whatever the cache write does, the
    answer is success; as far as the write goes, the cache holds the loaded
    photos with the same ids in the same order, the first photo with the
    id now carrying the target and every photo with another id untouched.
    When the store is configured and the photo names its asset, that asset
    exists and its context now reads back as the photo with the new
    collection (0 and the empty values as [None]). *)
Theorem reassignment_is_mirrored :
  forall (password : option string) (photo_id : Z) (target : value)
         (w : World),
    authorized password = true ->
    let r := update_photo_collection password photo_id target in
    let w1 := if truthy target then exec load_collections_data w else w in
    let photos_data := run load_photos_data w1 in
    let w2 := exec load_photos_data w1 in
    run r w = Success ->
    exists (v : value) (photo : photo),
      validated target (run load_collections_data w) = inr v /\
      find_photo photo_id photos_data = Some photo /\
      photos_file (exec r w)
        = written (next_disk w2) (photos_file w2)
            (assign_collection photo_id v photos_data) /\
      map p_id (assign_collection photo_id v photos_data)
        = map p_id photos_data /\
      find_photo photo_id (assign_collection photo_id v photos_data)
        = Some (reassigned v photo) /\
      (forall p, In p photos_data -> p_id p <> photo_id ->
                 In p (assign_collection photo_id v photos_data)) /\
      (cloudinary_configured w = true ->
       forall public_id, p_cloudinary_public_id photo = Some public_id ->
         has_asset public_id (assets (exec r w)) = true /\
         forall a, In a (assets (exec r w)) ->
                   r_public_id a = public_id ->
                   forall acc,
                     photo_of_resource acc a
                     = Some (mkPhoto (p_id photo) (p_filename photo)
                               (p_title photo) (p_description photo)
                               (listed_collection_id v) (r_secure_url a)
                               (Some public_id) (r_secure_url a)
                               (p_upload_date photo) "cloudinary")).
Proof.
  intros password photo_id target w Hauth r w1 photos_data w2 H.
  pose proof (update_photo_collection_spec password photo_id target w Hauth)
    as S. cbv zeta in S. fold w1 photos_data w2 in S.
  assert (Hexec : exec r w = snd (update_photo_collection password photo_id
                                    target w)) by reflexivity.
  unfold r, run in H. rewrite S in H, Hexec. clear S.
  destruct (validated target (run load_collections_data w)) as [resp|v] eqn:V.
  { cbn [fst] in H. unfold validated in V.
    destruct (truthy target); [|discriminate].
    destruct (run load_collections_data w); [injection V as <-; discriminate|].
    destruct (py_int target); [|injection V as <-; discriminate].
    destruct (existsb _ _); [discriminate|injection V as <-; discriminate]. }
  destruct (find_photo photo_id photos_data) as [photo|] eqn:F;
    [|discriminate].
  destruct (run (remote_update photo v) w2) eqn:U; [|discriminate].
  cbn [fst snd] in *. rewrite Hexec. clear Hexec H.
  destruct (remote_update_spec photo v w2) as (Pf & Pd & Pa).
  destruct (assign_collection_facts photo_id v photos_data) as (A1 & A2 & A3).
  exists v, photo. split; [reflexivity|]. split; [reflexivity|].
  split.
  { unfold write_photos_file, next_disk. unfold exec at 1.
    cbn [snd photos_file]. now rewrite Pf, Pd. }
  split; [exact A1|]. split; [now rewrite A2, F|]. split; [exact A3|].
  intros Hconf public_id Hpub.
  assert (C2 : cloudinary_configured w2 = true).
  { unfold w2. destruct (load_photos_data_spec w1) as (_ & _ & C & _).
    rewrite C. unfold w1. destruct (truthy target); [|exact Hconf].
    destruct (load_collections_data_spec w) as (_ & _ & C' & _). congruence. }
  destruct (Pa U C2 public_id Hpub) as [Hhas Hassets].
  assert (Ha : assets (exec (write_photos_file
                               (assign_collection photo_id v photos_data))
                         (exec (remote_update photo v) w2))
               = assets (exec (remote_update photo v) w2)) by reflexivity.
  rewrite Ha, Hassets.
  split; [now rewrite has_asset_set_context|].
  intros a Hin Hid acc.
  pose proof (set_context_reads_back _ _ _ _ Hin Hid) as Hctx.
  destruct a as [pid url created ctx].
  cbn [r_public_id r_context r_secure_url] in *.
  subst pid ctx.
  apply photo_of_resource_context_of.
Qed.

Lemma reassignment_is_mirrored_witness :
  map p_collection_id
    (read_file
       (photos_file
          (exec (update_photo_collection admin 1 VNone) (remote_world []))))
  = [VNone].
Proof.
  destruct (reassignment_is_mirrored admin 1 VNone (remote_world []) eq_refl
              eq_refl) as (v & photo & Hv & _ & Hf & _).
  injection Hv as <-. rewrite Hf. reflexivity.
Defined.

(** ** Cache write failures are swallowed *)

Lemma same_remote_next_net (w w' : World) :
  same_remote w w' -> next_net w' = next_net w.
Proof. intros (_ & _ & _ & N). unfold next_net. now rewrite N. Qed.

Lemma load_photos_data_net (w : World) :
  net (exec load_photos_data w)
  = if cloudinary_configured w then tl (net w) else net w.
Proof.
  unfold load_photos_data, load_photos_from_cloudinary, exec, bind, gets, ret,
    remote_call, write_photos_file.
  destruct (cloudinary_configured w); cbn [negb fst snd]; [|reflexivity].
  destruct (next_net w); cbn [fst snd assets]; [|reflexivity].
  destruct (listed_photos (assets w)); reflexivity.
Qed.

Lemma load_collections_data_net (w : World) :
  net (exec load_collections_data w)
  = if cloudinary_configured w
    then match next_net w, collections_metadata w with
         | true, Some _ => tl (tl (net w))
         | _, _ => tl (net w)
         end
    else net w.
Proof.
  unfold load_collections_data, load_collections_from_cloudinary, exec, bind,
    gets, ret, remote_call, write_collections_file.
  destruct (cloudinary_configured w); cbn [negb fst snd]; [|reflexivity].
  cbn [collections_metadata].
  destruct (next_net w), (collections_metadata w) as [data|];
    cbn [fst snd]; try reflexivity.
  destruct (next_net _); cbn [fst snd]; [|reflexivity].
  destruct data; reflexivity.
Qed.

Lemma remote_photos_same_remote (w w' : World) :
  same_remote w w' -> remote_photos w' = remote_photos w.
Proof.
  intro S. pose proof (same_remote_next_net w w' S) as N.
  destruct S as (C & A & _). unfold remote_photos. now rewrite C, A, N.
Qed.

Lemma remote_collections_same_remote (w w' : World) :
  same_remote w w' -> remote_collections w' = remote_collections w.
Proof.
  intro S. pose proof (same_remote_next_net w w' S) as N.
  destruct S as (C & _ & M & Nt).
  unfold remote_collections, second_net. now rewrite C, M, N, Nt.
Qed.

Lemma load_photos_data_same_remote (w w' : World) :
  same_remote w w' ->
  photos_file w' = photos_file w ->
  run load_photos_data w' = run load_photos_data w /\
  same_remote (exec load_photos_data w) (exec load_photos_data w').
Proof.
  intros S F. pose proof (remote_photos_same_remote w w' S) as R.
  destruct (load_photos_data_spec w) as (Hr & _ & Hc & Ha & Hm & _).
  destruct (load_photos_data_spec w') as (Hr' & _ & Hc' & Ha' & Hm' & _).
  destruct S as (C & A & M & Nt).
  split; [now rewrite Hr, Hr', R, F|].
  unfold same_remote. rewrite !load_photos_data_net.
  rewrite Hc, Hc', Ha, Ha', Hm, Hm', C, Nt. repeat split; assumption.
Qed.

Lemma load_collections_data_same_remote (w w' : World) :
  same_remote w w' ->
  collections_file w' = collections_file w ->
  run load_collections_data w' = run load_collections_data w /\
  same_remote (exec load_collections_data w) (exec load_collections_data w').
Proof.
  intros S F. pose proof (remote_collections_same_remote w w' S) as R.
  pose proof (same_remote_next_net w w' S) as N.
  destruct (load_collections_data_spec w) as (Hr & _ & Hc & Ha & Hm & _).
  destruct (load_collections_data_spec w') as (Hr' & _ & Hc' & Ha' & Hm' & _).
  destruct S as (C & A & M & Nt).
  split; [now rewrite Hr, Hr', R, F|].
  unfold same_remote. rewrite !load_collections_data_net.
  rewrite Hc, Hc', Ha, Ha', Hm, Hm', C, Nt, N, M. repeat split; assumption.
Qed.

Lemma remote_update_same_remote (photo : photo) (v : value) (w w' : World) :
  same_remote w w' ->
  run (remote_update photo v) w' = run (remote_update photo v) w.
Proof.
  intro S. pose proof (same_remote_next_net w w' S) as N.
  destruct S as (C & A & M & Nt).
  unfold remote_update, run, bind, gets. rewrite C.
  destruct (cloudinary_configured w); [|reflexivity].
  destruct (p_cloudinary_public_id photo) as [pk|]; [|reflexivity].
  unfold uploader_explicit, bind, remote_call, gets, set_assets, ret.
  cbn [fst snd assets]. rewrite N, A.
  destruct (next_net w && has_asset pk (assets w))%bool; reflexivity.
Qed.

Lemma with_outcomes_same_remote (w : World) (d : list write_outcome) :
  same_remote w (with_outcomes (net w) d w).
Proof. repeat split. Qed.

(** X20. What a reassignment or a delete answers does not depend on how the
    local cache writes turn out: under any other outcomes of the file
    writes the answers are the same.  The same holds for the lists that the
    two loads return. *)
Theorem answers_ignore_cache_write_outcomes :
  forall (password : option string) (photo_id : Z) (target : value)
         (w : World) (d : list write_outcome),
    let w' := with_outcomes (net w) d w in
    run load_photos_data w' = run load_photos_data w /\
    run load_collections_data w' = run load_collections_data w /\
    run (delete_photo password photo_id) w'
      = run (delete_photo password photo_id) w /\
    run (update_photo_collection password photo_id target) w'
      = run (update_photo_collection password photo_id target) w.
Proof.
  intros password photo_id target w d w'.
  pose proof (with_outcomes_same_remote w d) as S. fold w' in S.
  destruct (load_photos_data_same_remote w w' S eq_refl) as [P PS].
  destruct (load_collections_data_same_remote w w' S eq_refl) as [Cl CS].
  split; [exact P|]. split; [exact Cl|].
  destruct (authorized password) eqn:Hauth.
  - split.
    + pose proof (delete_photo_spec password photo_id w Hauth) as D.
      pose proof (delete_photo_spec password photo_id w' Hauth) as D'.
      cbv zeta in D, D'. rewrite P in D'.
      destruct (find_photo photo_id (run load_photos_data w));
        destruct D as [D _], D' as [D' _]; congruence.
    + change (fst (update_photo_collection password photo_id target w')
              = fst (update_photo_collection password photo_id target w)).
      rewrite !(update_photo_collection_spec password photo_id target _ Hauth).
      rewrite Cl.
      destruct (validated target (run load_collections_data w)) as [r|v];
        [reflexivity|].
      set (w1 := if truthy target then exec load_collections_data w else w).
      set (w1' := if truthy target then exec load_collections_data w' else w').
      assert (S1 : same_remote w1 w1' /\ photos_file w1' = photos_file w1).
      { unfold w1, w1'. destruct (truthy target); [|split; [exact S|reflexivity]].
        split; [exact CS|].
        destruct (load_collections_data_spec w) as (_ & _ & _ & _ & _ & F).
        destruct (load_collections_data_spec w') as (_ & _ & _ & _ & _ & F').
        now rewrite F, F'. }
      destruct S1 as [S1 F1].
      destruct (load_photos_data_same_remote w1 w1' S1 F1) as [P1 S2].
      cbv zeta. rewrite P1.
      destruct (find_photo photo_id (run load_photos_data w1)) as [photo|];
        [|reflexivity].
      rewrite (remote_update_same_remote photo v _ _ S2).
      destruct (run (remote_update photo v) (exec load_photos_data w1));
        reflexivity.
  - unfold delete_photo, update_photo_collection. rewrite Hauth.
    split; reflexivity.
Qed.

(** ** The unique filename *)

Lemma rsplit_dot_last (stem ext : string) :
  (forall c, In c (list_ascii_of_string ext) -> c <> "."%char) ->
  rsplit_dot (stem ++ String "." ext) = Some ext.
Proof.
  intro H. induction stem as [|c stem IH]; cbn [append rsplit_dot].
  - rewrite (rsplit_dot_none ext H). reflexivity.
  - now rewrite IH.
Qed.

(** X21. For a filename with a dot, the unique filename is the random
    token, a dot and the lowercased text after the last dot of the
    original name; a name that ends in a dot therefore gets an empty
    extension, not "jpg". *)
Theorem unique_filename_keeps_last_extension :
  forall (lower : string -> string) (uuid_hex stem ext : string),
    (forall c, In c (list_ascii_of_string ext) -> c <> "."%char) ->
    file_extension lower (stem ++ String "." ext) = lower ext /\
    unique_filename lower uuid_hex (stem ++ String "." ext)
    = uuid_hex ++ String "." (lower ext).
Proof.
  intros lower uuid_hex stem ext H.
  unfold unique_filename, file_extension.
  rewrite (rsplit_dot_last stem ext H). split; reflexivity.
Qed.

Lemma unique_filename_keeps_last_extension_witness :
  unique_filename ascii_lower "0123abcd" "Holiday.Trip.JPG" = "0123abcd.jpg" /\
  unique_filename ascii_lower "0123abcd" "photo." = "0123abcd.".
Proof.
  split.
  - apply (unique_filename_keeps_last_extension ascii_lower "0123abcd"
             "Holiday.Trip" "JPG").
    intros c Hc. cbn in Hc.
    repeat (destruct Hc as [<-|Hc]; [discriminate|]). contradiction.
  - apply (unique_filename_keeps_last_extension ascii_lower "0123abcd"
             "photo" "").
    intros c [].
Defined.

(** ** Diagnostics and startup *)

(** X22. The diagnostics report the number of photos that the photo list
    returns from the same world and say "cloudinary" exactly when the store
    is configured.  They can report that the cache file does not exist only
    if it did not exist before the call and either no photo was loaded or
    the cache write failed when opening the file. *)
Theorem debug_report_is_consistent :
  forall (cloud_name api_key api_secret : option string) (w : World),
    let r := run (debug_info cloud_name api_key api_secret) w in
    d_photos_count r = List.length (run get_photos w) /\
    d_collections_count r
      = List.length (run load_collections_data (exec load_photos_data w)) /\
    d_cloudinary_configured r = cloudinary_configured w /\
    d_storage_type r
      = (if cloudinary_configured w then "cloudinary" else "local") /\
    (d_json_file_exists r = false ->
     photos_file w = Absent /\
     (d_photos_count r = 0%nat \/ next_disk w = WriteFailOpen)).
Proof.
  intros cloud_name api_key api_secret w. cbv zeta.
  unfold debug_info. rewrite !run_bind.
  change (run (gets ?f) ?x) with (f x).
  change (exec (gets ?f) ?x) with x.
  change (run (ret ?a) ?x) with a.
  cbn [d_photos_count d_collections_count d_cloudinary_configured
         d_storage_type d_json_file_exists].
  assert (Hp : map fst (run get_photos w) = run load_photos_data w)
    by (unfold get_photos; rewrite !run_bind;
        apply add_collection_names_shape).
  destruct (load_photos_data_spec w) as (Hr & Hf & Hc & _).
  destruct (load_collections_data_spec (exec load_photos_data w))
    as (_ & _ & Hc' & _ & _ & Hf').
  rewrite Hc', Hc, Hf', Hf.
  split; [now rewrite <- Hp, length_map|].
  split; [reflexivity|]. split; [reflexivity|]. split; [reflexivity|].
  rewrite Hr. unfold refreshed, cached, written.
  destruct (remote_photos w) as [|x l].
  - destruct (photos_file w); cbn; try discriminate. intros _. now split; [|left].
  - destruct (next_disk w); cbn; try discriminate.
    destruct (photos_file w); cbn; try discriminate.
    intros _. split; [reflexivity|now right].
Qed.

Lemma debug_report_is_consistent_witness :
  let w := with_outcomes [] [WriteFailOpen] (remote_world []) in
  d_photos_count (run (debug_info None None None) w) = 1%nat /\
  next_disk w = WriteFailOpen.
Proof.
  cbv zeta.
  destruct (debug_report_is_consistent None None None
              (with_outcomes [] [WriteFailOpen] (remote_world [])))
    as (_ & _ & _ & _ & H).
  destruct (H eq_refl) as [_ [E|E]].
  - discriminate E.
  - split; [reflexivity|exact E].
Defined.

(** X23. A process that starts with one of the three environment variables
    missing or empty, or whose ping fails, is not configured: both loads
    then return the content of the cache files (empty for a missing or
    unreadable file) and change nothing. *)
Theorem degraded_startup_serves_the_cache :
  forall (cloud_name api_key api_secret : option string) (ping_ok : bool)
         (w : World),
    (env_set cloud_name && env_set api_key && env_set api_secret
     && ping_ok)%bool = false ->
    let w0 := startup cloud_name api_key api_secret ping_ok w in
    cloudinary_configured w0 = false /\
    load_photos_data w0 = (read_file (photos_file w), w0) /\
    load_collections_data w0 = (read_file (collections_file w), w0).
Proof.
  intros cloud_name api_key api_secret ping_ok w H. cbv zeta.
  assert (C : cloudinary_configured
                (startup cloud_name api_key api_secret ping_ok w) = false).
  { unfold startup, configure. cbn [cloudinary_configured].
    destruct (env_set cloud_name && env_set api_key && env_set api_secret)%bool;
      [exact H|reflexivity]. }
  split; [exact C|]. split.
  - now rewrite (load_photos_data_unconfigured _ C).
  - now rewrite (load_collections_data_unconfigured _ C).
Qed.

Lemma degraded_startup_serves_the_cache_witness :
  run load_collections_data
    (startup (Some "demo") (Some "") (Some "secret") true (remote_world []))
  = [].
Proof.
  destruct (degraded_startup_serves_the_cache (Some "demo") (Some "")
              (Some "secret") true (remote_world []) eq_refl)
    as (_ & _ & H).
  unfold run. rewrite H. reflexivity.
Defined.
